(** * Signalling helper of the WebRTC cross-browser tests

    A shallow embedding of [webrtc/cross-browser-helper.js]: the [Future]
    class, the [Signaling] message router with its two transports
    ([LoopbackSignaling], [WebSocketSignaling]) and the completion hook that
    [cross_browser_test] installs on a test.

    JavaScript objects live in a store and are named by their allocation
    index, so that two references to one object are one index.  Methods are
    computations in a state-and-exception monad over that store.  The
    handlers of the embedding page (candidate and data handlers) are named by
    numbers; what calling one does is given by the environment [Host], so a
    handler may throw and may call back into the signalling objects. *)

From Stdlib Require Import ZArith String List Lia Bool.
From stdpp Require Import base list strings pretty.
Import ListNotations.
Local Open Scope string_scope.
Local Open Scope list_scope.

(** ** Values *)

(** The data that travels in messages and settles futures: decoded JSON
    scalars, host objects kept opaque (session descriptions, candidates), and
    the [{status, message}] record that the completion hook exchanges.  None
    of them is a thenable. *)
Inductive value : Type :=
| VUndefined
| VNull
| VNum (n : Z)
| VStr (s : string)
| VHost (o : nat)
| VResult (status : Z) (message : option string).

#[global] Instance value_eq_dec : EqDecision value.
Proof. solve_decision. Defined.

(** A message is an object that may or may not own the properties [type] and
    [value]. *)
Record message : Type := Message {
  msg_type : option value;
  msg_value : option value
}.

#[global] Instance message_eq_dec : EqDecision message.
Proof. solve_decision. Defined.

(** The object literal [{type: t, value: v}]. *)
Definition envelope (t : string) (v : value) : message :=
  {| msg_type := Some (VStr t); msg_value := Some v |}.

(** Reading [message.value]: an absent property reads as [undefined]. *)
Definition value_of (m : message) : value :=
  match msg_value m with Some v => v | None => VUndefined end.

(** ** Future *)

(** [class Future extends Promise] keeps the two resolving functions that the
    Promise constructor hands to its executor, and [resolve] / [reject] call
    them.  The promise underneath is the ECMAScript one: it is pending until
    the first call of either resolving function, which (for a value that is
    not a thenable) settles it and queues one reaction job per registered
    reaction, in registration order; any later call returns without effect.
    A reaction registered on a settled promise is queued as a job at once. *)
Module Future.

Inductive outcome : Type :=
| Fulfilled (v : value)
| Rejected (e : value).

Inductive state : Type :=
| Pending
| Settled (o : outcome).

(** An awaiter is the continuation that [await] or [then] registers. *)
Abbreviation awaiter := nat (only parsing).

(** A reaction job: resume the awaiter with the outcome. *)
Definition job : Type := awaiter * outcome.

Record t : Type := Make {
  st : state;
  reactions : list awaiter
}.

(** [new Future()] *)
Definition new : t := {| st := Pending; reactions := [] |}.

Definition settle (o : outcome) (p : t) : t * list job :=
  match st p with
  | Pending =>
      ({| st := Settled o; reactions := [] |},
       map (fun a => (a, o)) (reactions p))
  | Settled _ => (p, [])
  end.

(** [future.resolve(v)] *)
Definition resolve (v : value) (p : t) : t * list job :=
  settle (Fulfilled v) p.

(** [future.reject(e)] *)
Definition reject (e : value) (p : t) : t * list job :=
  settle (Rejected e) p.

(** [await future] by the continuation [a] *)
Definition await (a : awaiter) (p : t) : t * list job :=
  match st p with
  | Pending => ({| st := Pending; reactions := reactions p ++ [a] |}, [])
  | Settled o => (p, [(a, o)])
  end.

(** A client of one future. *)
Inductive op : Type :=
| Resolve (v : value)
| Reject (e : value)
| Await (a : awaiter).

Definition step (o : op) (p : t) : t * list job :=
  match o with
  | Resolve v => resolve v p
  | Reject e => reject e p
  | Await a => await a p
  end.

(** Run the operations in order; the jobs come out in queueing order. *)
Fixpoint run (ops : list op) (p : t) : t * list job :=
  match ops with
  | [] => (p, [])
  | o :: rest =>
      let '(p1, js1) := step o p in
      let '(p2, js2) := run rest p1 in
      (p2, js1 ++ js2)
  end.

(** The outcome that the first [resolve] or [reject] of a run asks for. *)
Fixpoint first_settlement (ops : list op) : option outcome :=
  match ops with
  | [] => None
  | Resolve v :: _ => Some (Fulfilled v)
  | Reject e :: _ => Some (Rejected e)
  | Await _ :: rest => first_settlement rest
  end.

(** The awaiters of a run, in the order they began to await. *)
Fixpoint awaiters (ops : list op) : list awaiter :=
  match ops with
  | [] => []
  | Await a :: rest => a :: awaiters rest
  | _ :: rest => awaiters rest
  end.

End Future.

(** ** The object store *)

(** Objects are named by their index in the store: [fid] a Future, [sid] a
    signalling object; [handler] names a host callback. *)
Abbreviation fid := nat (only parsing).
Abbreviation sid := nat (only parsing).
Abbreviation handler := nat (only parsing).

(** [ws.readyState] values of the WebSocket interface. *)
Definition CONNECTING : Z := 0.
Definition OPEN : Z := 1.
Definition CLOSING : Z := 2.
Definition CLOSED : Z := 3.

(** The host's WebSocket object, as far as the helper uses it: its
    [readyState] and the frames handed to [ws.send], oldest first.  A frame is
    kept as the message whose [JSON.stringify] was sent. *)
Record WebSocket : Type := {
  readyState : Z;
  sent : list message
}.

(** The class of a signalling object, with the fields its subclass adds. *)
Inductive transport : Type :=
| Abstract
| Loopback (other : option sid)
| Relay (_pendingOutboundMessages : list message) (ws : WebSocket).

Record Signaling : Type := {
  _pendingInboundMessages : list message;
  _remoteDescriptionFuture : option fid;
  _remoteCandidateHandler : option handler;
  _remoteDataHandler : option handler;
  _doneSent : bool;
  _remoteDoneFuture : fid;
  klass : transport
}.

(** Who a payload was handed to: the future of a description wait, a
    candidate handler, a data handler, or the remote-done future. *)
Inductive consumer : Type :=
| DescriptionWait (f : fid)
| CandidateHandler (h : handler)
| DataHandler (h : handler)
| DoneWait (f : fid).

Record delivery : Type := {
  d_at : sid;
  d_to : consumer;
  d_payload : value
}.

Record World : Type := {
  futures : list Future.t;
  signalings : list Signaling;
  deliveries : list delivery;
  microtasks : list Future.job
}.

Definition empty_world : World :=
  {| futures := []; signalings := []; deliveries := []; microtasks := [] |}.

(** ** The monad of methods *)

(** The description that an assertion fails with: a string literal, or a
    template literal with one substitution, [`prefix${v}`], kept as the
    prefix and the value substituted. *)
Inductive description : Type :=
| Literal (s : string)
| Template (prefix : string) (v : value).

Inductive error : Type :=
| AssertUnreached (d : description)
| TypeError (description : string).

Inductive result (A : Type) : Type :=
| Ok (a : A)
| Throw (e : error)
| OutOfFuel.
Arguments Ok {A} a.
Arguments Throw {A} e.
Arguments OutOfFuel {A}.

Definition M (A : Type) : Type := World -> result A * World.

Definition ret {A} (a : A) : M A := fun w => (Ok a, w).

Definition bind {A B} (m : M A) (k : A -> M B) : M B :=
  fun w =>
    match m w with
    | (Ok a, w') => k a w'
    | (Throw e, w') => (Throw e, w')
    | (OutOfFuel, w') => (OutOfFuel, w')
    end.

Notation "x <- m ;; k" := (bind m (fun x => k))
  (at level 100, m at next level, right associativity).
Notation "m ;;; k" := (bind m (fun _ => k))
  (at level 100, right associativity).

Definition throw {A} (e : error) : M A := fun w => (Throw e, w).

(** Modelled from the spec: [assert_unreached(description)] belongs to
    testharness.js, which is not part of this file; a violation is fatal and
    surfaces as an unreachable-assertion failure that ends the current step,
    so the call throws. *)
Definition assert_unreached {A} (d : description) : M A :=
  throw (AssertUnreached d).

(** The store after a computation, and what the computation returned. *)
Definition exec {A} (m : M A) (w : World) : World := snd (m w).
Definition eval {A} (m : M A) (w : World) : result A := fst (m w).

(** [for (const x of xs) body(x)] over an array that the body does not
    change. *)
Fixpoint for_of {A} (xs : list A) (body : A -> M unit) : M unit :=
  match xs with
  | [] => ret tt
  | x :: rest => body x ;;; for_of rest body
  end.

(** Call [f] on each element in turn and collect what the calls return. *)
Fixpoint call_each {A B} (f : A -> M B) (xs : list A) : M (list B) :=
  match xs with
  | [] => ret []
  | x :: rest =>
      b <- f x ;;
      bs <- call_each f rest ;;
      ret (b :: bs)
  end.

(** Reading and writing the fields of the signalling object [this]. *)
Definition load (this : sid) : M Signaling :=
  fun w =>
    match signalings w !! this with
    | Some s => (Ok s, w)
    | None => (Throw (TypeError "not an object"), w)
    end.

Definition store (this : sid) (s : Signaling) : M unit :=
  fun w =>
    (Ok tt,
     {| futures := futures w;
        signalings := <[this := s]> (signalings w);
        deliveries := deliveries w;
        microtasks := microtasks w |}).

(** ** Handlers of the embedding page

    The functions given to [onRemoteCandidate] and [onRemoteData] are the
    page's.  A handler is named by a number, and the environment says what
    calling it with a payload does: a computation over the store, which may
    throw and may call methods of the signalling objects in turn. *)
Class Host : Type := host_call : handler -> value -> M unit.

(** One entry of the trace [deliveries]: at [this], the payload [v] is
    handed to [c]. *)
Definition trace (this : sid) (c : consumer) (v : value) : M unit :=
  fun w =>
    (Ok tt,
     {| futures := futures w;
        signalings := signalings w;
        deliveries := deliveries w ++ [{| d_at := this; d_to := c; d_payload := v |}];
        microtasks := microtasks w |}).

(** [new Future()] in the store. *)
Definition new_Future : M fid :=
  fun w =>
    (Ok (length (futures w)),
     {| futures := futures w ++ [Future.new];
        signalings := signalings w;
        deliveries := deliveries w;
        microtasks := microtasks w |}).

(** Apply a [Future] method to the object [f]; its jobs join the microtask
    queue. *)
Definition on_future (f : fid) (method : Future.t -> Future.t * list Future.job)
  : M unit :=
  fun w =>
    match futures w !! f with
    | Some p =>
        let '(p', jobs) := method p in
        (Ok tt,
         {| futures := <[f := p']> (futures w);
            signalings := signalings w;
            deliveries := deliveries w;
            microtasks := microtasks w ++ jobs |})
    | None => (Throw (TypeError "not an object"), w)
    end.

Definition future_resolve (f : fid) (v : value) : M unit :=
  on_future f (Future.resolve v).

(** The router hands the payload [v] to the consumer [c]: it resolves the
    future of a wait with it ([future.resolve(v)]), or calls the handler with
    it ([handler(v)]).  The call is entered in the trace as it is made; the
    trace plays no part in what the methods do. *)
Definition deliver `{Host} (this : sid) (c : consumer) (v : value) : M unit :=
  trace this c v ;;;
  match c with
  | DescriptionWait f | DoneWait f => future_resolve f v
  | CandidateHandler h | DataHandler h => host_call h v
  end.

(** [await r] by the continuation [a], where [r] is a Future or [null]:
    awaiting [null] resumes the continuation with [null]. *)
Definition await (a : Future.awaiter) (r : option fid) : M unit :=
  match r with
  | Some f => on_future f (Future.await a)
  | None =>
      fun w =>
        (Ok tt,
         {| futures := futures w;
            signalings := signalings w;
            deliveries := deliveries w;
            microtasks := microtasks w ++ [(a, Future.Fulfilled VNull)] |})
  end.

(** What an [await] of [r] produces in the store [w], if anything yet. *)
Definition awaited (r : option fid) (w : World) : option Future.outcome :=
  match r with
  | None => Some (Future.Fulfilled VNull)
  | Some f =>
      match futures w !! f with
      | Some p =>
          match Future.st p with
          | Future.Settled o => Some o
          | Future.Pending => None
          end
      | None => None
      end
  end.

(** ** Signaling *)

(** Field updates of a signalling object. *)
Definition with_pendingInboundMessages (q : list message) (s : Signaling) :=
  {| _pendingInboundMessages := q;
     _remoteDescriptionFuture := _remoteDescriptionFuture s;
     _remoteCandidateHandler := _remoteCandidateHandler s;
     _remoteDataHandler := _remoteDataHandler s;
     _doneSent := _doneSent s;
     _remoteDoneFuture := _remoteDoneFuture s;
     klass := klass s |}.

Definition with_remoteDescriptionFuture (f : option fid) (s : Signaling) :=
  {| _pendingInboundMessages := _pendingInboundMessages s;
     _remoteDescriptionFuture := f;
     _remoteCandidateHandler := _remoteCandidateHandler s;
     _remoteDataHandler := _remoteDataHandler s;
     _doneSent := _doneSent s;
     _remoteDoneFuture := _remoteDoneFuture s;
     klass := klass s |}.

Definition with_remoteCandidateHandler (h : option handler) (s : Signaling) :=
  {| _pendingInboundMessages := _pendingInboundMessages s;
     _remoteDescriptionFuture := _remoteDescriptionFuture s;
     _remoteCandidateHandler := h;
     _remoteDataHandler := _remoteDataHandler s;
     _doneSent := _doneSent s;
     _remoteDoneFuture := _remoteDoneFuture s;
     klass := klass s |}.

Definition with_remoteDataHandler (h : option handler) (s : Signaling) :=
  {| _pendingInboundMessages := _pendingInboundMessages s;
     _remoteDescriptionFuture := _remoteDescriptionFuture s;
     _remoteCandidateHandler := _remoteCandidateHandler s;
     _remoteDataHandler := h;
     _doneSent := _doneSent s;
     _remoteDoneFuture := _remoteDoneFuture s;
     klass := klass s |}.

Definition with_doneSent (b : bool) (s : Signaling) :=
  {| _pendingInboundMessages := _pendingInboundMessages s;
     _remoteDescriptionFuture := _remoteDescriptionFuture s;
     _remoteCandidateHandler := _remoteCandidateHandler s;
     _remoteDataHandler := _remoteDataHandler s;
     _doneSent := b;
     _remoteDoneFuture := _remoteDoneFuture s;
     klass := klass s |}.

Definition with_klass (k : transport) (s : Signaling) :=
  {| _pendingInboundMessages := _pendingInboundMessages s;
     _remoteDescriptionFuture := _remoteDescriptionFuture s;
     _remoteCandidateHandler := _remoteCandidateHandler s;
     _remoteDataHandler := _remoteDataHandler s;
     _doneSent := _doneSent s;
     _remoteDoneFuture := _remoteDoneFuture s;
     klass := k |}.

(** [this._pendingInboundMessages.push(message)] *)
Definition push_inbound (this : sid) (m : message) : M unit :=
  s <- load this ;;
  store this (with_pendingInboundMessages (_pendingInboundMessages s ++ [m]) s).

(** The constructor of [Signaling], for an object of class [k].  The cleanup
    it registers on the test only closes the transport and is left out. *)
Definition new_Signaling (k : transport) : M sid :=
  f <- new_Future ;;
  fun w =>
    (Ok (length (signalings w)),
     {| futures := futures w;
        signalings := signalings w ++
          [{| _pendingInboundMessages := [];
              _remoteDescriptionFuture := None;
              _remoteCandidateHandler := None;
              _remoteDataHandler := None;
              _doneSent := false;
              _remoteDoneFuture := f;
              klass := k |}];
        deliveries := deliveries w;
        microtasks := microtasks w |}).

Definition _handleRemoteDescription `{Host} (this : sid) (m : message) : M unit :=
  s <- load this ;;
  match _remoteDescriptionFuture s with
  | None => push_inbound this m
  | Some future =>
      store this (with_remoteDescriptionFuture None s) ;;;
      deliver this (DescriptionWait future) (value_of m)
  end.

Definition _handleRemoteCandidate `{Host} (this : sid) (m : message) : M unit :=
  s <- load this ;;
  match _remoteCandidateHandler s with
  | None => push_inbound this m
  | Some h => deliver this (CandidateHandler h) (value_of m)
  end.

Definition _handleData `{Host} (this : sid) (m : message) : M unit :=
  s <- load this ;;
  match _remoteDataHandler s with
  | None => push_inbound this m
  | Some h => deliver this (DataHandler h) (value_of m)
  end.

Definition _handleDone `{Host} (this : sid) (m : message) : M unit :=
  s <- load this ;;
  deliver this (DoneWait (_remoteDoneFuture s)) (value_of m).

(** [if (!('value' in message)) message.value = null] *)
Definition default_value (m : message) : message :=
  match msg_value m with
  | Some _ => m
  | None => {| msg_type := msg_type m; msg_value := Some VNull |}
  end.

(** The [switch] compares [message.type] with each case by strict equality,
    in order. *)
Definition _receiveMessage `{Host} (this : sid) (m : message) : M unit :=
  match msg_type m with
  | None =>
      assert_unreached
        (Literal "(Signaling) Invalid message, did not contain a 'type' field")
  | Some ty =>
      let m := default_value m in
      if decide (ty = VStr "description") then _handleRemoteDescription this m
      else if decide (ty = VStr "candidate") then _handleRemoteCandidate this m
      else if decide (ty = VStr "data") then _handleData this m
      else if decide (ty = VStr "done") then _handleDone this m
      else
        assert_unreached (Template "(Signaling) Unknown message type: " ty)
  end.

Definition _processPendingInboundMessages `{Host} (this : sid) : M unit :=
  s <- load this ;;
  let messages := _pendingInboundMessages s in
  store this (with_pendingInboundMessages [] s) ;;;
  for_of messages (_receiveMessage this).

Definition receiveRemoteDescription `{Host} (this : sid) : M (option fid) :=
  s <- load this ;;
  match _remoteDescriptionFuture s with
  | None =>
      f <- new_Future ;;
      store this (with_remoteDescriptionFuture (Some f) s)
  | Some _ => ret tt
  end ;;;
  _processPendingInboundMessages this ;;;
  s' <- load this ;;
  ret (_remoteDescriptionFuture s').

(** [set onRemoteCandidate(handler)] *)
Definition set_onRemoteCandidate `{Host} (this : sid) (h : handler) : M unit :=
  s <- load this ;;
  store this (with_remoteCandidateHandler (Some h) s) ;;;
  _processPendingInboundMessages this.

(** [set onRemoteData(handler)] *)
Definition set_onRemoteData `{Host} (this : sid) (h : handler) : M unit :=
  s <- load this ;;
  store this (with_remoteDataHandler (Some h) s) ;;;
  _processPendingInboundMessages this.

(** ** Transports *)

(** [ws.send(JSON.stringify(message))] on the socket of a relay object. *)
Definition ws_send (m : message) (ws : WebSocket) : WebSocket :=
  {| readyState := readyState ws; sent := sent ws ++ [m] |}.

(** [_sendMessage], by the class of [this]: the base class refuses,
    [LoopbackSignaling] calls the peer's [_receiveMessage], and
    [WebSocketSignaling] caches the message while the socket is not open and
    sends it otherwise. *)
Definition _sendMessage `{Host} (this : sid) (m : message) : M unit :=
  s <- load this ;;
  match klass s with
  | Abstract =>
      assert_unreached (Literal "(Signaling) You need to implement this!")
  | Loopback None => throw (TypeError "this.other is null")
  | Loopback (Some other) => _receiveMessage other m
  | Relay pending ws =>
      if negb (readyState ws =? 1)%Z
      then store this (with_klass (Relay (pending ++ [m]) ws) s)
      else store this (with_klass (Relay pending (ws_send m ws)) s)
  end.

Definition sendLocalDescription `{Host} (this : sid) (description : value) : M unit :=
  _sendMessage this (envelope "description" description).

Definition sendLocalCandidate `{Host} (this : sid) (candidate : value) : M unit :=
  _sendMessage this (envelope "candidate" candidate).

Definition sendData `{Host} (this : sid) (data : value) : M unit :=
  _sendMessage this (envelope "data" data).

Definition _done `{Host} (this : sid) (result : value) : M fid :=
  s <- load this ;;
  (if negb (_doneSent s)
   then
     _sendMessage this (envelope "done" result) ;;;
     s1 <- load this ;;
     store this (with_doneSent true s1)
   else ret tt) ;;;
  s2 <- load this ;;
  ret (_remoteDoneFuture s2).

(** [new LoopbackSignaling(test)] *)
Definition new_LoopbackSignaling : M sid := new_Signaling (Loopback None).

(** [signaling.other = peer] *)
Definition set_other (this peer : sid) : M unit :=
  s <- load this ;;
  store this (with_klass (Loopback (Some peer)) s).

(** [new WebSocketSignaling(test, url)]: the socket starts connecting. *)
Definition new_WebSocketSignaling : M sid :=
  new_Signaling (Relay [] {| readyState := CONNECTING; sent := [] |}).

(** The body of [ws.onopen]: [for (const message of
    this._pendingOutboundMessages) this._sendMessage(message)].  The array
    iterator reads the array afresh at every step, so the loop is by index
    over the live array, with fuel. *)
Fixpoint onopen_from `{Host} (fuel : nat) (i : nat) (this : sid) : M unit :=
  match fuel with
  | O => fun w => (OutOfFuel, w)
  | S fuel' =>
      s <- load this ;;
      match klass s with
      | Relay pending _ =>
          match pending !! i with
          | Some m => _sendMessage this m ;;; onopen_from fuel' (S i) this
          | None => ret tt
          end
      | _ => throw (TypeError "this._pendingOutboundMessages is not iterable")
      end
  end.

Definition onopen `{Host} (fuel : nat) (this : sid) : M unit := onopen_from fuel 0 this.

(** The host changes [ws.readyState]. *)
Definition set_readyState (this : sid) (rs : Z) : M unit :=
  s <- load this ;;
  match klass s with
  | Relay pending ws =>
      store this
        (with_klass (Relay pending {| readyState := rs; sent := sent ws |}) s)
  | _ => ret tt
  end.

(** The connection is established: the host sets [readyState] to [OPEN] and
    fires the open event, in one task. *)
Definition ws_open `{Host} (fuel : nat) (this : sid) : M unit :=
  set_readyState this OPEN ;;; onopen fuel this.

(** [ws.onmessage], on the decoded frame. *)
Definition onmessage `{Host} (this : sid) (decoded : message) : M unit :=
  _receiveMessage this decoded.

(** What a relay object has cached and what it has put on the wire. *)
Definition outbound (this : sid) (w : World) : list message :=
  match signalings w !! this with
  | Some s =>
      match klass s with
      | Relay pending _ => pending
      | _ => []
      end
  | None => []
  end.

Definition wire (this : sid) (w : World) : list message :=
  match signalings w !! this with
  | Some s =>
      match klass s with
      | Relay _ ws => sent ws
      | _ => []
      end
  | None => []
  end.

Definition ready_state (this : sid) (w : World) : option Z :=
  match signalings w !! this with
  | Some s =>
      match klass s with
      | Relay _ ws => Some (readyState ws)
      | _ => None
      end
  | None => None
  end.

(** ** exchangeDescriptions *)

(** [exchangeDescriptions] is an async function; between two awaits it runs
    without interruption.  The peer-connection calls are the host's; the offer
    and the answer they produce are given.

    Offerer, after [createOffer] and [setLocalDescription] have completed:
    send the offer, then ask for the remote description. *)
Definition exchangeDescriptions_offer `{Host} (this : sid) (offer : value)
  : M (option fid) :=
  sendLocalDescription this offer ;;;
  receiveRemoteDescription this.

(** Answerer, on entry: ask for the remote description. *)
Definition exchangeDescriptions_wait `{Host} (this : sid) : M (option fid) :=
  receiveRemoteDescription this.

(** Answerer, after the remote description was applied and
    [createAnswer] and [setLocalDescription] have completed: send the
    answer. *)
Definition exchangeDescriptions_answer `{Host} (this : sid) (answer : value) : M unit :=
  sendLocalDescription this answer.

(** The loopback branch of [cross_browser_test]: two objects, each the
    other's peer. *)
Definition loopback_pair : M (sid * sid) :=
  signaling1 <- new_LoopbackSignaling ;;
  signaling2 <- new_LoopbackSignaling ;;
  set_other signaling1 signaling2 ;;;
  set_other signaling2 signaling1 ;;;
  ret (signaling1, signaling2).

(** ** The completion hook of cross_browser_test *)


Section CompletionHook.

(** The status and phase constants are testharness.js's. *)
Variables (PASS FAIL : Z) (STARTED HAS_RESULT : Z).








End CompletionHook.

(** ** Runs of one router *)

(** What happens to a signalling object from outside: a message comes in, or
    a consumer registers. *)
Inductive event : Type :=
| Receive (m : message)
| ReceiveRemoteDescription
| SetOnRemoteCandidate (h : handler)
| SetOnRemoteData (h : handler).

(** An exception ends the call that raised it; the store keeps what was
    written before. *)
Definition occur `{Host} (this : sid) (e : event) (w : World) : World :=
  match e with
  | Receive m => exec (_receiveMessage this m) w
  | ReceiveRemoteDescription => exec (receiveRemoteDescription this) w
  | SetOnRemoteCandidate h => exec (set_onRemoteCandidate this h) w
  | SetOnRemoteData h => exec (set_onRemoteData this h) w
  end.

Definition occur_all `{Host} (this : sid) (es : list event) (w : World) : World :=
  fold_left (fun w e => occur this e w) es w.

(** What the calls of [receiveRemoteDescription] in a run returned, in the
    order of the calls. *)
Fixpoint answers `{Host} (this : sid) (es : list event) (w : World)
  : list (result (option fid)) :=
  match es with
  | [] => []
  | e :: rest =>
      match e with
      | ReceiveRemoteDescription => [eval (receiveRemoteDescription this) w]
      | _ => []
      end ++ answers this rest (occur this e w)
  end.

(** The four kinds of envelope. *)
Inductive kind : Type := Description | Candidate | Data | Done.

#[global] Instance kind_eq_dec : EqDecision kind.
Proof. solve_decision. Defined.

Definition kind_of (m : message) : option kind :=
  match msg_type m with
  | None => None
  | Some ty =>
      if decide (ty = VStr "description") then Some Description
      else if decide (ty = VStr "candidate") then Some Candidate
      else if decide (ty = VStr "data") then Some Data
      else if decide (ty = VStr "done") then Some Done
      else None
  end.

Definition consumer_kind (c : consumer) : kind :=
  match c with
  | DescriptionWait _ => Description
  | CandidateHandler _ => Candidate
  | DataHandler _ => Data
  | DoneWait _ => Done
  end.

(** An envelope as a consumer sees it: its kind and its payload, [null] when
    the message came without a value. *)
Definition seen (m : message) : option (kind * value) :=
  match kind_of m with
  | Some k => Some (k, value_of (default_value m))
  | None => None
  end.

(** The envelopes that arrived in a run, in arrival order. *)
Definition arrivals (es : list event) : list (kind * value) :=
  omap (fun e => match e with Receive m => seen m | _ => None end) es.

(** What was handed to which consumer at [this], in delivery order. *)
Definition deliveries_at (this : sid) (w : World) : list (consumer * value) :=
  omap (fun d =>
          if decide (d_at d = this) then Some (d_to d, d_payload d) else None)
       (deliveries w).

(** The descriptions among what was handed over, each with the future that
    it was handed to. *)
Definition waits_served (l : list (consumer * value)) : list (fid * value) :=
  omap (fun d =>
          match fst d with
          | DescriptionWait f => Some (f, snd d)
          | _ => None
          end) l.

(** The envelopes handed to consumers at [this], in delivery order. *)
Definition delivered (this : sid) (w : World) : list (kind * value) :=
  map (fun d => (consumer_kind (fst d), snd d)) (deliveries_at this w).

(** The envelopes that [this] retains, in queue order. *)
Definition retained (this : sid) (w : World) : list (kind * value) :=
  match signalings w !! this with
  | Some s => omap seen (_pendingInboundMessages s)
  | None => []
  end.

(** The envelopes of one kind among [l]. *)
Definition of_kind (k : kind) (l : list (kind * value)) : list value :=
  omap (fun e => if decide (fst e = k) then Some (snd e) else None) l.

(** [is_subsequence l1 l2]: [l1] is [l2] with some elements left out, the
    order kept. *)
Fixpoint is_subsequence {A} `{EqDecision A} (l1 l2 : list A) : bool :=
  match l1, l2 with
  | [], _ => true
  | _ :: _, [] => false
  | x :: l1', y :: l2' =>
      if decide (x = y) then is_subsequence l1' l2' else is_subsequence l1 l2'
  end.

(** A fresh signalling object of class [k] in an empty store. *)
Definition fresh (k : transport) : World := exec (new_Signaling k) empty_world.


(** ** The router seen from one object

    What one signalling object and its environment can tell of a store: the
    object's fields, what was delivered at it, and the futures.  The functions
    below say what each event does to that view when the handlers are
    [quiet]; the properties section proves that the methods above do exactly
    this then. *)
Module Router.

Record view : Type := {
  fields : Signaling;
  handed : list (consumer * value);
  heap : list Future.t
}.

Definition observe (this : sid) (w : World) : option view :=
  match signalings w !! this with
  | Some s =>
      Some {| fields := s; handed := deliveries_at this w; heap := futures w |}
  | None => None
  end.

(** The consumer that is ready for an envelope of kind [k], if any. *)
Definition consumer_for (k : kind) (s : Signaling) : option consumer :=
  match k with
  | Description => DescriptionWait <$> _remoteDescriptionFuture s
  | Candidate => CandidateHandler <$> _remoteCandidateHandler s
  | Data => DataHandler <$> _remoteDataHandler s
  | Done => Some (DoneWait (_remoteDoneFuture s))
  end.

(** Handing [v] to a future resolves it; to a handler leaves the futures
    alone. *)
Definition settle_in (c : consumer) (v : value) (fs : list Future.t)
  : list Future.t :=
  match c with
  | DescriptionWait f | DoneWait f =>
      match fs !! f with
      | Some p => <[f := fst (Future.resolve v p)]> fs
      | None => fs
      end
  | CandidateHandler _ | DataHandler _ => fs
  end.

(** A description wait is used up by the envelope it takes. *)
Definition after_delivery (k : kind) (s : Signaling) : Signaling :=
  match k with
  | Description => with_remoteDescriptionFuture None s
  | _ => s
  end.

Definition route (m : message) (o : view) : view :=
  match seen m with
  | None => o
  | Some (k, v) =>
      match consumer_for k (fields o) with
      | Some c =>
          {| fields := after_delivery k (fields o);
             handed := handed o ++ [(c, v)];
             heap := settle_in c v (heap o) |}
      | None =>
          {| fields :=
               with_pendingInboundMessages
                 (_pendingInboundMessages (fields o) ++ [default_value m])
                 (fields o);
             handed := handed o;
             heap := heap o |}
      end
  end.

Definition route_all (ms : list message) (o : view) : view :=
  fold_left (fun o m => route m o) ms o.

Definition replay (o : view) : view :=
  route_all (_pendingInboundMessages (fields o))
    {| fields := with_pendingInboundMessages [] (fields o);
       handed := handed o;
       heap := heap o |}.

Definition open_wait (o : view) : view :=
  match _remoteDescriptionFuture (fields o) with
  | Some _ => o
  | None =>
      {| fields := with_remoteDescriptionFuture (Some (length (heap o))) (fields o);
         handed := handed o;
         heap := heap o ++ [Future.new] |}
  end.

Definition step (e : event) (o : view) : view :=
  match e with
  | Receive m => route m o
  | ReceiveRemoteDescription => replay (open_wait o)
  | SetOnRemoteCandidate h =>
      replay {| fields := with_remoteCandidateHandler (Some h) (fields o);
                handed := handed o;
                heap := heap o |}
  | SetOnRemoteData h =>
      replay {| fields := with_remoteDataHandler (Some h) (fields o);
                handed := handed o;
                heap := heap o |}
  end.

(** The futures that the object names exist, and its queue holds envelopes
    only. *)
Definition sound (o : view) : Prop :=
  (forall f, _remoteDescriptionFuture (fields o) = Some f -> f < length (heap o)) /\
  _remoteDoneFuture (fields o) < length (heap o) /\
  Forall (fun m => seen m <> None) (_pendingInboundMessages (fields o)).

(** The envelopes of a view: handed over and retained. *)
Definition handed_envelopes (o : view) : list (kind * value) :=
  map (fun d => (consumer_kind (fst d), snd d)) (handed o).

Definition retained_envelopes (o : view) : list (kind * value) :=
  omap seen (_pendingInboundMessages (fields o)).

(** A consumer that is ready has nothing of its kind left in the queue. *)
Definition drained (o : view) : Prop :=
  forall k, consumer_for k (fields o) <> None ->
            of_kind k (retained_envelopes o) = [].

(** An open description wait is a pending future of its own, not the
    remote-done future. *)
Definition waiting (o : view) : Prop :=
  forall f, _remoteDescriptionFuture (fields o) = Some f ->
            f <> _remoteDoneFuture (fields o) /\
            exists p, heap o !! f = Some p /\ Future.st p = Future.Pending.

(** What holds of the view of every store that events lead to. *)
Definition steady (o : view) : Prop := sound o /\ drained o /\ waiting o.

(** The envelopes of kind [k] that a view accounts for: those handed over,
    then those retained. *)
Definition ledger (k : kind) (o : view) : list value :=
  of_kind k (handed_envelopes o) ++ of_kind k (retained_envelopes o).

End Router.

(** ** exchangeCandidates *)

(** ToBoolean of a value, as [if (candidate)] applies it. *)
Definition truthy (v : value) : bool :=
  match v with
  | VUndefined | VNull => false
  | VNum n => negb (n =? 0)%Z
  | VStr s => negb (String.eqb s "")
  | VHost _ | VResult _ _ => true
  end.

(** The listener that [exchangeCandidates] binds to the connection's
    [icecandidate] event, called with [event.candidate]. *)
Definition on_icecandidate `{Host} (this : sid) (candidate : value) : M unit :=
  if truthy candidate then sendLocalCandidate this candidate else ret tt.

(** [exchangeCandidates(test, pc)]: the host binds the listener above; the
    handler for remote candidates is the closure that calls
    [pc.addIceCandidate], named by [pc]. *)
Definition exchangeCandidates `{Host} (this : sid) (pc : handler) : M unit :=
  set_onRemoteCandidate this pc.

(** ** Test addresses *)

(** [params.get(name)]: the first value given for the name, or [null]. *)
Fixpoint params_get (name : string) (params : list (string * string))
  : option string :=
  match params with
  | [] => None
  | (n, v) :: rest => if String.eqb n name then Some v else params_get name rest
  end.

(** [params.get('crossBrowser') !== null] *)
Definition crossBrowserEnabled (params : list (string * string)) : bool :=
  match params_get "crossBrowser" params with Some _ => true | None => false end.

(** [(params.get('role') === '1') ? 1 : 0] *)
Definition role (params : list (string * string)) : nat :=
  match params_get "role" params with
  | Some v => if String.eqb v "1" then 1 else 0
  | None => 0
  end.

(** [params.get('signalingServer')] in a template literal: [null] prints as
    ["null"]. *)
Definition signalingServerBaseUrl (params : list (string * string)) : string :=
  match params_get "signalingServer" params with
  | Some v => v
  | None => "null"
  end.

(** [`${signalingServerBaseUrl}/${test.index}/${role}`] *)
Definition signalingServerUrl (base : string) (index role : nat) : string :=
  String.append base
    (String.append "/" (String.append (pretty index)
       (String.append "/" (pretty role)))).

(** ** More of the router's view *)

(** The remote-done future is pending until a [done] envelope is handed to
    it, and then holds the payload of the first one. *)
Definition done_recorded (o : Router.view) : Prop :=
  exists p,
    Router.heap o !! _remoteDoneFuture (Router.fields o) = Some p /\
    Future.st p =
      match of_kind Done (Router.handed_envelopes o) with
      | [] => Future.Pending
      | v :: _ => Future.Settled (Future.Fulfilled v)
      end.

(** The open wait, and every future that a description was handed to, is
    one that a call of [receiveRemoteDescription] answered with, among the
    answers [R]; and a future that a description was handed to is fulfilled
    with that description and is not the remote-done future. *)
Definition answered (R : list (result (option fid))) (o : Router.view) : Prop :=
  (forall f, _remoteDescriptionFuture (Router.fields o) = Some f ->
             In (Ok (Some f)) R) /\
  (forall f v, In (f, v) (waits_served (Router.handed o)) ->
     In (Ok (Some f)) R /\
     f <> _remoteDoneFuture (Router.fields o) /\
     exists p, Router.heap o !! f = Some p /\
               Future.st p = Future.Settled (Future.Fulfilled v)).

(** A retained message is an envelope with a value, of a kind that has no
    consumer ready. *)
Definition waits_for_consumer (s : Signaling) (m : message) : Prop :=
  exists k v,
    seen m = Some (k, v) /\ msg_value m = Some v /\
    Router.consumer_for k s = None.

Definition queue_waits (o : Router.view) : Prop :=
  Forall (waits_for_consumer (Router.fields o))
         (_pendingInboundMessages (Router.fields o)).

(** The messages of one kind among [ms], and the others. *)
Definition messages_of (k : kind) (ms : list message) : list message :=
  filter (fun m => kind_of m = Some k) ms.

Definition messages_not_of (k : kind) (ms : list message) : list message :=
  filter (fun m => kind_of m <> Some k) ms.

(** The inbound queue of [this]. *)
Definition inbound (this : sid) (w : World) : list message :=
  match signalings w !! this with
  | Some s => _pendingInboundMessages s
  | None => []
  end.

(** The values of the messages [ms], each handed to the consumer [c]. *)
Definition handed_to (c : consumer) (ms : list message) : list (consumer * value) :=
  map (fun m => (c, value_of m)) ms.

(** Whether [this] has sent its [done], and its remote-done future. *)
Definition done_sent (this : sid) (w : World) : option bool :=
  _doneSent <$> signalings w !! this.

Definition remote_done (this : sid) (w : World) : option fid :=
  _remoteDoneFuture <$> signalings w !! this.

(** A loopback object that has exchanged nothing but candidates: its peer,
    its remote-done future, its candidate handler and its queue. *)
Definition candidate_peer (other : sid) (remoteDone : fid)
    (h : option handler) (q : list message) : Signaling :=
  {| _pendingInboundMessages := q;
     _remoteDescriptionFuture := None;
     _remoteCandidateHandler := h;
     _remoteDataHandler := None;
     _doneSent := false;
     _remoteDoneFuture := remoteDone;
     klass := Loopback (Some other) |}.

(** The store of a loopback pair, with what has been delivered so far. *)
Definition pair_store (a b : Signaling) (ds : list delivery) : World :=
  {| futures := [Future.new; Future.new];
     signalings := [a; b];
     deliveries := ds;
     microtasks := [] |}.

(** The calls of the handler [h] at [this], one per payload. *)
Definition handler_calls (this : sid) (h : handler) (vs : list value)
  : list delivery :=
  map (fun v => {| d_at := this; d_to := CandidateHandler h; d_payload := v |}) vs.

(** ** Environments *)

(** Handlers that return at once: they leave the store as it is and call
    nothing.  This is the environment of every statement that names none. *)
#[global] Instance quiet : Host := fun _ _ => ret tt.

(** An environment behaves like [quiet]. *)
Definition returns_quietly (H : Host) : Prop :=
  forall h v w, @host_call H h v w = (Ok tt, w).

(** Handlers that throw when they are called. *)
Definition throwing : Host :=
  fun _ _ => throw (TypeError "the handler failed").

(** Handlers that call back: called with a payload other than that of [m],
    a handler makes the message [m] arrive at the object [this] (as a handler
    does that sends on a loopback object whose peer answers at once); called
    with the payload of [m], as it is when that arrival reaches it, it returns
    at once. *)
Definition feeding (this : sid) (m : message) : Host :=
  fun _ v =>
    if decide (v = value_of (default_value m)) then ret tt
    else @_receiveMessage quiet this m.

(** * Properties *)

(** Where a statement names no environment, the handlers are [quiet].  A
    statement that holds whatever the handlers do, or for every environment
    that [returns_quietly], says so by quantifying over the environment; what
    a handler that throws or that feeds the router does is shown where the
    order of envelopes and the replay are treated. *)

(** ** Future *)

Module FutureFacts.
Import Future.

Lemma run_settled (ops : list op) (p : t) (o : outcome) :
  st p = Settled o ->
  run ops p = (p, map (fun a => (a, o)) (awaiters ops)).
Proof.
  revert p. induction ops as [|[v|e|a] rest IH]; intros p Hp; simpl.
  - reflexivity.
  - unfold resolve, settle. rewrite Hp, (IH p Hp). reflexivity.
  - unfold reject, settle. rewrite Hp, (IH p Hp). reflexivity.
  - unfold await. rewrite Hp, (IH p Hp). reflexivity.
Qed.

Lemma run_pending (ops : list op) (p : t) :
  st p = Pending ->
  run ops p =
    match first_settlement ops with
    | Some o =>
        ({| st := Settled o; reactions := [] |},
         map (fun a => (a, o)) (reactions p ++ awaiters ops))
    | None =>
        ({| st := Pending; reactions := reactions p ++ awaiters ops |}, [])
    end.
Proof.
  revert p. induction ops as [|[v|e|a] rest IH]; intros p Hp; simpl.
  - rewrite app_nil_r. destruct p; simpl in *; subst; reflexivity.
  - unfold resolve, settle. rewrite Hp.
    rewrite (run_settled rest _ (Fulfilled v)) by reflexivity.
    rewrite map_app. reflexivity.
  - unfold reject, settle. rewrite Hp.
    rewrite (run_settled rest _ (Rejected e)) by reflexivity.
    rewrite map_app. reflexivity.
  - unfold await. rewrite Hp. rewrite IH by reflexivity. simpl.
    rewrite <- app_assoc. simpl. destruct (first_settlement rest); reflexivity.
Qed.

End FutureFacts.

(** C8. The first [resolve] or [reject] on a future settles it with that
    outcome, and every later [resolve] or [reject] leaves it as it is and
    queues nothing.  Each awaiter of the run, whether it began to await before
    or after the settlement, is resumed exactly once, in the order the
    awaiters came, and all with that one outcome; awaiting the settled future
    once more queues the resumption at once, with the stored outcome. *)
Theorem future_first_settlement_wins (ops : list Future.op) (o : Future.outcome) :
  Future.first_settlement ops = Some o ->
  let p := fst (Future.run ops Future.new) in
  Future.st p = Future.Settled o /\
  snd (Future.run ops Future.new) = map (fun a => (a, o)) (Future.awaiters ops) /\
  (forall v, Future.resolve v p = (p, [])) /\
  (forall e, Future.reject e p = (p, [])) /\
  (forall a, Future.await a p = (p, [(a, o)])).
Proof.
  intros Hfirst. rewrite FutureFacts.run_pending by reflexivity.
  rewrite Hfirst. simpl. repeat split.
Qed.

Lemma future_first_settlement_wins_witness :
  let ops := [Future.Await 1; Future.Resolve (VNum 5); Future.Reject (VStr "late");
              Future.Await 2; Future.Resolve (VNum 6)] in
  let p := fst (Future.run ops Future.new) in
  Future.st p = Future.Settled (Future.Fulfilled (VNum 5)) /\
  snd (Future.run ops Future.new) =
    [(1, Future.Fulfilled (VNum 5)); (2, Future.Fulfilled (VNum 5))] /\
  (forall v, Future.resolve v p = (p, [])) /\
  (forall e, Future.reject e p = (p, [])) /\
  (forall a, Future.await a p = (p, [(a, Future.Fulfilled (VNum 5))])).
Proof.
  exact (future_first_settlement_wins
           [Future.Await 1; Future.Resolve (VNum 5); Future.Reject (VStr "late");
            Future.Await 2; Future.Resolve (VNum 6)]
           (Future.Fulfilled (VNum 5)) eq_refl).
Defined.

(** ** The methods do what the router's view says *)

Module RouterFacts.
Import Router.

Lemma seen_default_value (m : message) : seen (default_value m) = seen m.
Proof. destruct m as [ty [v|]]; reflexivity. Qed.

Lemma seen_None_throws (this : sid) (m : message) (w : World) :
  seen m = None -> exists e, _receiveMessage this m w = (Throw e, w).
Proof.
  unfold seen, kind_of, _receiveMessage. destruct (msg_type m) as [ty|].
  - repeat case_decide; try discriminate. intros _. eexists. reflexivity.
  - intros _. eexists. reflexivity.
Qed.

Lemma omap_at_snoc (this at_ : sid) (c : consumer) (v : value) ds :
  omap (fun d => if decide (d_at d = this) then Some (d_to d, d_payload d) else None)
       (ds ++ [{| d_at := at_; d_to := c; d_payload := v |}])
  = omap (fun d => if decide (d_at d = this) then Some (d_to d, d_payload d) else None) ds
    ++ (if decide (at_ = this) then [(c, v)] else []).
Proof. rewrite omap_app. simpl. case_decide; reflexivity. Qed.

Lemma sound_future_lookup (fs : list Future.t) (f : fid) :
  f < length fs -> exists p, fs !! f = Some p.
Proof. intros H. destruct (lookup_lt_is_Some_2 fs f H) as [p Hp]. eauto. Qed.

Ltac finish_receive Hs Hlt :=
  eexists; split; [reflexivity|]; simpl;
  try rewrite list_lookup_insert_eq by exact Hlt;
  try rewrite Hs;
  unfold deliveries_at; simpl;
  try (rewrite omap_at_snoc, decide_True by reflexivity);
  reflexivity.

(** [_receiveMessage] on an envelope is [route]. *)
Lemma receive_refines (this : sid) (m : message) (w : World) (o : view) :
  observe this w = Some o -> sound o -> seen m <> None ->
  exists w', _receiveMessage this m w = (Ok tt, w') /\
             observe this w' = Some (route m o).
Proof.
  unfold observe. destruct (signalings w !! this) as [s|] eqn:Hs; [|discriminate].
  intros [= <-] (Hslot & Hdone & _) Hseen. simpl in *.
  pose proof (lookup_lt_Some _ _ _ Hs) as Hlt.
  unfold route. destruct (seen m) as [[k v]|] eqn:Hkv; [clear Hseen|congruence].
  unfold seen, kind_of in Hkv. unfold _receiveMessage.
  destruct (msg_type m) as [ty|]; [|discriminate].
  repeat case_decide; try discriminate; injection Hkv as <- <-; simpl.
  - (* description *)
    unfold _handleRemoteDescription, bind, load. rewrite Hs.
    destruct (_remoteDescriptionFuture s) as [f|] eqn:Hf; simpl.
    + destruct (sound_future_lookup _ _ (Hslot f eq_refl)) as [p Hp].
      unfold deliver, bind, trace, future_resolve, on_future. simpl. rewrite Hp.
      destruct (Future.resolve (value_of (default_value m)) p) as [p' jobs] eqn:Hres.
      finish_receive Hs Hlt.
    + unfold push_inbound, bind, load, store. rewrite Hs.
      finish_receive Hs Hlt.
  - (* candidate *)
    unfold _handleRemoteCandidate, bind, load. rewrite Hs.
    destruct (_remoteCandidateHandler s) as [h|] eqn:Hh; simpl.
    + unfold deliver, bind, trace, host_call, quiet, ret. finish_receive Hs Hlt.
    + unfold push_inbound, bind, load, store. rewrite Hs.
      finish_receive Hs Hlt.
  - (* data *)
    unfold _handleData, bind, load. rewrite Hs.
    destruct (_remoteDataHandler s) as [h|] eqn:Hh; simpl.
    + unfold deliver, bind, trace, host_call, quiet, ret. finish_receive Hs Hlt.
    + unfold push_inbound, bind, load, store. rewrite Hs.
      finish_receive Hs Hlt.
  - (* done *)
    unfold _handleDone, bind, load. rewrite Hs. simpl.
    destruct (sound_future_lookup _ _ Hdone) as [p Hp].
    unfold deliver, bind, trace, future_resolve, on_future. simpl. rewrite Hp.
    destruct (Future.resolve (value_of (default_value m)) p) as [p' jobs] eqn:Hres.
    finish_receive Hs Hlt.
Qed.

Lemma settle_in_length (c : consumer) (v : value) (fs : list Future.t) :
  length (settle_in c v fs) = length fs.
Proof.
  destruct c; simpl; try reflexivity;
    destruct (fs !! f); try reflexivity; apply length_insert.
Qed.

Lemma route_sound (m : message) (o : view) : sound o -> sound (route m o).
Proof.
  intros (Hslot & Hdone & Hq). unfold route.
  destruct (seen m) as [[k v]|] eqn:Hkv; [|repeat split; assumption].
  destruct (consumer_for k (fields o)) as [c|] eqn:Hc.
  - repeat split; simpl.
    + intros f Hf. rewrite settle_in_length. apply Hslot.
      destruct k; simpl in Hf; [discriminate|assumption..].
    + rewrite settle_in_length. destruct k; exact Hdone.
    + destruct k; exact Hq.
  - repeat split; simpl; try assumption.
    apply Forall_app. split; [assumption|].
    constructor; [|constructor]. rewrite seen_default_value. congruence.
Qed.

Lemma route_all_sound (ms : list message) (o : view) :
  sound o -> sound (route_all ms o).
Proof.
  revert o. induction ms as [|m ms IH]; intros o Ho; simpl; [assumption|].
  apply IH, route_sound, Ho.
Qed.

(** The replay loop is [route_all]. *)
Lemma for_of_refines (this : sid) (ms : list message) (w : World) (o : view) :
  observe this w = Some o -> sound o -> Forall (fun m => seen m <> None) ms ->
  exists w', for_of ms (_receiveMessage this) w = (Ok tt, w') /\
             observe this w' = Some (route_all ms o).
Proof.
  revert w o. induction ms as [|m ms IH]; intros w o Hobs Ho Hms; simpl.
  - exists w. split; [reflexivity|assumption].
  - inversion Hms as [|? ? Hm Hrest]; subst.
    destruct (receive_refines this m w o Hobs Ho Hm) as (w1 & Hrun & Hobs1).
    destruct (IH w1 (route m o) Hobs1 (route_sound m o Ho) Hrest)
      as (w2 & Hrun2 & Hobs2).
    exists w2. split; [|assumption].
    unfold bind. rewrite Hrun. exact Hrun2.
Qed.

Lemma observe_store (this : sid) (s s' : Signaling) (w : World) :
  signalings w !! this = Some s ->
  observe this (exec (store this s') w) =
    Some {| fields := s'; handed := deliveries_at this w; heap := futures w |}.
Proof.
  intros Hs. unfold observe, exec, store. simpl.
  rewrite list_lookup_insert_eq by exact (lookup_lt_Some _ _ _ Hs).
  reflexivity.
Qed.

Lemma replay_refines (this : sid) (w : World) (o : view) :
  observe this w = Some o -> sound o ->
  exists w', _processPendingInboundMessages this w = (Ok tt, w') /\
             observe this w' = Some (replay o).
Proof.
  intros Hobs Ho. pose proof Hobs as Hobs'. unfold observe in Hobs'.
  destruct (signalings w !! this) as [s|] eqn:Hs; [|discriminate].
  injection Hobs' as <-.
  unfold _processPendingInboundMessages, bind, load. rewrite Hs. simpl.
  destruct Ho as (Hslot & Hdone & Hq). simpl in *.
  apply for_of_refines.
  - apply (observe_store this s _ w Hs).
  - repeat split; simpl; [assumption..|constructor].
  - assumption.
Qed.

Lemma replay_sound (o : view) : sound o -> sound (replay o).
Proof.
  intros (Hslot & Hdone & Hq). apply route_all_sound.
  repeat split; simpl; [assumption..|constructor].
Qed.

Lemma open_wait_sound (o : view) : sound o -> sound (open_wait o).
Proof.
  intros Ho. unfold open_wait.
  destruct (_remoteDescriptionFuture (fields o)) eqn:Hf; [exact Ho|].
  destruct Ho as (Hslot & Hdone & Hq).
  repeat split; simpl; rewrite ?length_app; simpl;
    [intros f [= <-]; lia | lia | assumption].
Qed.

Lemma step_sound (e : event) (o : view) : sound o -> sound (step e o).
Proof.
  intros Ho. destruct e; simpl.
  - apply route_sound, Ho.
  - apply replay_sound, open_wait_sound, Ho.
  - apply replay_sound. destruct Ho as (? & ? & ?). repeat split; assumption.
  - apply replay_sound. destruct Ho as (? & ? & ?). repeat split; assumption.
Qed.

(** [receiveRemoteDescription] replays with a wait open, and returns what
    the field holds afterwards. *)
Lemma receiveRemoteDescription_refines (this : sid) (w : World) (o : view) :
  observe this w = Some o -> sound o ->
  exists w', receiveRemoteDescription this w =
               (Ok (_remoteDescriptionFuture (fields (replay (open_wait o)))), w') /\
             observe this w' = Some (replay (open_wait o)).
Proof.
  intros Hobs Ho. pose proof Hobs as Hobs'. unfold observe in Hobs'.
  destruct (signalings w !! this) as [s|] eqn:Hs; [|discriminate].
  injection Hobs' as <-.
  assert (Hopen : exists w1,
    (match _remoteDescriptionFuture s with
     | None => f <- new_Future ;; store this (with_remoteDescriptionFuture (Some f) s)
     | Some _ => ret tt
     end) w = (Ok tt, w1) /\
    observe this w1 =
      Some (open_wait {| fields := s; handed := deliveries_at this w; heap := futures w |})).
  { unfold open_wait. simpl.
    destruct (_remoteDescriptionFuture s) eqn:Hf.
    - exists w. split; [reflexivity|]. unfold observe. rewrite Hs. reflexivity.
    - eexists. split; [reflexivity|]. unfold observe. simpl.
      rewrite list_lookup_insert_eq by exact (lookup_lt_Some _ _ _ Hs).
      reflexivity. }
  destruct Hopen as (w1 & Hrun1 & Hobs1).
  destruct (replay_refines this w1 _ Hobs1 (open_wait_sound _ Ho))
    as (w2 & Hrun2 & Hobs2).
  exists w2. split; [|assumption].
  unfold receiveRemoteDescription, bind at 1, load at 1. rewrite Hs.
  unfold bind at 1. rewrite Hrun1. unfold bind at 1. rewrite Hrun2.
  unfold bind, load. unfold observe in Hobs2.
  destruct (signalings w2 !! this) as [s2|]; [|discriminate].
  injection Hobs2 as <-. reflexivity.
Qed.

(** Every event does to the view what [step] says, and keeps it sound. *)
Lemma occur_refines (this : sid) (e : event) (w : World) (o : view) :
  observe this w = Some o -> sound o ->
  observe this (occur this e w) = Some (step e o).
Proof.
  intros Hobs Ho. destruct e as [m| |h|h]; simpl.
  - destruct (seen m) as [kv|] eqn:Hkv.
    + destruct (receive_refines this m w o Hobs Ho) as (w' & Hrun & Hobs');
        [congruence|]. unfold exec. rewrite Hrun. exact Hobs'.
    + destruct (seen_None_throws this m w Hkv) as (err & Hrun).
      unfold exec. rewrite Hrun. simpl. unfold route. rewrite Hkv. exact Hobs.
  - destruct (receiveRemoteDescription_refines this w o Hobs Ho)
      as (w' & Hrun & Hobs'). unfold exec. rewrite Hrun. exact Hobs'.
  - pose proof Hobs as Hobs'. unfold observe in Hobs'.
    destruct (signalings w !! this) as [s|] eqn:Hs; [|discriminate].
    injection Hobs' as <-.
    destruct (replay_refines this (exec (store this (with_remoteCandidateHandler (Some h) s)) w) _
                (observe_store this s _ w Hs)) as (w' & Hrun & Hobs').
    { destruct Ho as (? & ? & ?). repeat split; assumption. }
    unfold exec, set_onRemoteCandidate, bind, load. rewrite Hs. simpl.
    unfold exec in Hrun. simpl in Hrun. rewrite Hrun. exact Hobs'.
  - pose proof Hobs as Hobs'. unfold observe in Hobs'.
    destruct (signalings w !! this) as [s|] eqn:Hs; [|discriminate].
    injection Hobs' as <-.
    destruct (replay_refines this (exec (store this (with_remoteDataHandler (Some h) s)) w) _
                (observe_store this s _ w Hs)) as (w' & Hrun & Hobs').
    { destruct Ho as (? & ? & ?). repeat split; assumption. }
    unfold exec, set_onRemoteData, bind, load. rewrite Hs. simpl.
    unfold exec in Hrun. simpl in Hrun. rewrite Hrun. exact Hobs'.
Qed.

Lemma occur_all_refines (this : sid) (es : list event) (w : World) (o : view) :
  observe this w = Some o -> sound o ->
  observe this (occur_all this es w) = Some (fold_left (fun o e => step e o) es o) /\
  sound (fold_left (fun o e => step e o) es o).
Proof.
  revert w o. induction es as [|e es IH]; intros w o Hobs Ho; simpl.
  - split; assumption.
  - apply IH; [apply occur_refines; assumption | apply step_sound, Ho].
Qed.

End RouterFacts.

(** ** Handlers that return at once *)

Module HostFacts.

Lemma bind_ext {A B} (m1 m2 : M A) (k1 k2 : A -> M B) :
  (forall w, m1 w = m2 w) -> (forall a w, k1 a w = k2 a w) ->
  forall w, bind m1 k1 w = bind m2 k2 w.
Proof.
  intros Hm Hk w. unfold bind. rewrite Hm.
  destruct (m2 w) as [[a|e|] w']; [apply Hk|reflexivity..].
Qed.

Lemma for_of_ext {A} (xs : list A) (f g : A -> M unit) :
  (forall x w, f x w = g x w) -> forall w, for_of xs f w = for_of xs g w.
Proof.
  intros Hfg. induction xs as [|x xs IH]; intros w; [reflexivity|].
  cbn [for_of]. apply bind_ext; [apply Hfg|intros _; exact IH].
Qed.

Section Quiet.

Context (H : Host) (Hquiet : returns_quietly H).

Lemma deliver_quiet (this : sid) (c : consumer) (v : value) (w : World) :
  deliver this c v w = @deliver quiet this c v w.
Proof.
  unfold deliver. apply bind_ext; [reflexivity|]. intros _ w'.
  destruct c; try reflexivity; apply Hquiet.
Qed.

Lemma receive_quiet (this : sid) (m : message) (w : World) :
  _receiveMessage this m w = @_receiveMessage quiet this m w.
Proof.
  unfold _receiveMessage. destruct (msg_type m) as [ty|]; [|reflexivity].
  repeat case_decide; try reflexivity.
  - unfold _handleRemoteCandidate. apply bind_ext; [reflexivity|]. intros s w'.
    destruct (_remoteCandidateHandler s); [apply deliver_quiet|reflexivity].
  - unfold _handleData. apply bind_ext; [reflexivity|]. intros s w'.
    destruct (_remoteDataHandler s); [apply deliver_quiet|reflexivity].
Qed.

Lemma replay_quiet (this : sid) (w : World) :
  _processPendingInboundMessages this w =
  @_processPendingInboundMessages quiet this w.
Proof.
  unfold _processPendingInboundMessages.
  apply bind_ext; [reflexivity|]. intros s w'.
  apply bind_ext; [reflexivity|]. intros _ w''.
  apply for_of_ext. apply receive_quiet.
Qed.

Lemma receiveRemoteDescription_quiet (this : sid) (w : World) :
  receiveRemoteDescription this w = @receiveRemoteDescription quiet this w.
Proof.
  unfold receiveRemoteDescription.
  apply bind_ext; [reflexivity|]. intros s w'.
  apply bind_ext; [reflexivity|]. intros _ w''.
  apply bind_ext; [apply replay_quiet|reflexivity].
Qed.

Lemma set_onRemoteCandidate_quiet (this : sid) (h : handler) (w : World) :
  set_onRemoteCandidate this h w = @set_onRemoteCandidate quiet this h w.
Proof.
  unfold set_onRemoteCandidate.
  apply bind_ext; [reflexivity|]. intros s w'.
  apply bind_ext; [reflexivity|]. intros _ w''. apply replay_quiet.
Qed.

Lemma set_onRemoteData_quiet (this : sid) (h : handler) (w : World) :
  set_onRemoteData this h w = @set_onRemoteData quiet this h w.
Proof.
  unfold set_onRemoteData.
  apply bind_ext; [reflexivity|]. intros s w'.
  apply bind_ext; [reflexivity|]. intros _ w''. apply replay_quiet.
Qed.

Lemma occur_quiet (this : sid) (e : event) (w : World) :
  occur this e w = @occur quiet this e w.
Proof.
  destruct e; unfold occur, exec.
  - rewrite receive_quiet. reflexivity.
  - rewrite receiveRemoteDescription_quiet. reflexivity.
  - rewrite set_onRemoteCandidate_quiet. reflexivity.
  - rewrite set_onRemoteData_quiet. reflexivity.
Qed.

Lemma occur_all_quiet (this : sid) (es : list event) (w : World) :
  occur_all this es w = @occur_all quiet this es w.
Proof.
  revert w. induction es as [|e es IH]; intros w; [reflexivity|].
  unfold occur_all in *. cbn [fold_left]. rewrite occur_quiet. apply IH.
Qed.

Lemma answers_quiet (this : sid) (es : list event) (w : World) :
  answers this es w = @answers quiet this es w.
Proof.
  revert w. induction es as [|e es IH]; intros w; [reflexivity|].
  cbn [answers]. rewrite occur_quiet, IH. f_equal.
  destruct e; try reflexivity.
  unfold eval. rewrite receiveRemoteDescription_quiet. reflexivity.
Qed.

End Quiet.

End HostFacts.

(** ** Order and accounting of envelopes *)

Module Accounting.
Import Router.

Lemma of_kind_app (k : kind) (l1 l2 : list (kind * value)) :
  of_kind k (l1 ++ l2) = of_kind k l1 ++ of_kind k l2.
Proof. apply omap_app. Qed.

Lemma of_kind_one (k k0 : kind) (v : value) :
  of_kind k [(k0, v)] = if decide (k0 = k) then [v] else [].
Proof. unfold of_kind. simpl. case_decide; reflexivity. Qed.

Lemma consumer_for_kind (k : kind) (s : Signaling) (c : consumer) :
  consumer_for k s = Some c -> consumer_kind c = k.
Proof.
  destruct k; simpl;
    [destruct (_remoteDescriptionFuture s)
    |destruct (_remoteCandidateHandler s)
    |destruct (_remoteDataHandler s)|];
    simpl; intros [= <-]; reflexivity.
Qed.

Lemma route_ledger (m : message) (o : view) (k : kind) :
  drained o ->
  ledger k (route m o) =
    ledger k o ++ of_kind k (match seen m with Some e => [e] | None => [] end).
Proof.
  intros Hd. unfold route, ledger.
  destruct (seen m) as [[k0 v]|] eqn:Hkv; [|simpl; rewrite app_nil_r; reflexivity].
  destruct (consumer_for k0 (fields o)) as [c|] eqn:Hc.
  - unfold handed_envelopes, retained_envelopes.
    cbn [handed fields]. rewrite map_app, of_kind_app.
    cbn [map fst snd]. rewrite (consumer_for_kind _ _ _ Hc).
    replace (_pendingInboundMessages (after_delivery k0 (fields o)))
      with (_pendingInboundMessages (fields o)) by (destruct k0; reflexivity).
    rewrite of_kind_one. case_decide as Hk.
    + subst k0. assert (Hnone : of_kind k (retained_envelopes o) = [])
        by (apply Hd; congruence).
      unfold retained_envelopes in Hnone. rewrite Hnone.
      rewrite !app_nil_r. reflexivity.
    + rewrite !app_nil_r. reflexivity.
  - unfold handed_envelopes, retained_envelopes.
    cbn [handed fields with_pendingInboundMessages _pendingInboundMessages].
    rewrite omap_app.
    replace (omap seen [default_value m]) with [(k0, v)]
      by (simpl; rewrite RouterFacts.seen_default_value, Hkv; reflexivity).
    rewrite of_kind_app, app_assoc. reflexivity.
Qed.

Lemma route_drained (m : message) (o : view) : drained o -> drained (route m o).
Proof.
  intros Hd. unfold route.
  destruct (seen m) as [[k0 v]|] eqn:Hkv; [|assumption].
  destruct (consumer_for k0 (fields o)) as [c|] eqn:Hc; intros k Hk.
  - unfold retained_envelopes. cbn [fields] in *.
    replace (_pendingInboundMessages (after_delivery k0 (fields o)))
      with (_pendingInboundMessages (fields o)) by (destruct k0; reflexivity).
    apply Hd. destruct k0, k; simpl in *; congruence.
  - unfold retained_envelopes.
    cbn [fields with_pendingInboundMessages _pendingInboundMessages] in *.
    rewrite omap_app.
    replace (omap seen [default_value m]) with [(k0, v)]
      by (simpl; rewrite RouterFacts.seen_default_value, Hkv; reflexivity).
    rewrite of_kind_app, of_kind_one.
    assert (Hne : k0 <> k).
    { intros ->. apply Hk. destruct k; exact Hc. }
    rewrite decide_False by exact Hne. rewrite app_nil_r.
    apply Hd. destruct k; exact Hk.
Qed.

Lemma route_all_ledger (ms : list message) (o : view) (k : kind) :
  drained o ->
  ledger k (route_all ms o) = ledger k o ++ of_kind k (omap seen ms) /\
  drained (route_all ms o).
Proof.
  revert o. induction ms as [|m ms IH]; intros o Hd; simpl.
  - rewrite app_nil_r. split; [reflexivity|assumption].
  - destruct (IH (route m o) (route_drained m o Hd)) as [-> Hd'].
    split; [|assumption].
    rewrite (route_ledger m o k Hd), <- app_assoc. f_equal.
    destruct (seen m) as [e|]; simpl; [|reflexivity].
    unfold of_kind. simpl. destruct (decide (e.1 = k)); reflexivity.
Qed.

(** A replay hands over or retains again what was retained, and nothing
    else. *)
Lemma replay_ledger (o : view) (k : kind) :
  ledger k (replay o) = ledger k o /\ drained (replay o).
Proof.
  unfold replay.
  set (o0 := {| fields := with_pendingInboundMessages [] (fields o);
                handed := handed o; heap := heap o |}).
  assert (Hd0 : drained o0) by (intros k' _; reflexivity).
  destruct (route_all_ledger (_pendingInboundMessages (fields o)) o0 k Hd0)
    as [-> Hd].
  split; [|assumption].
  unfold ledger, handed_envelopes, retained_envelopes. simpl.
  rewrite app_nil_r. reflexivity.
Qed.

Lemma step_ledger (e : event) (o : view) (k : kind) :
  drained o ->
  ledger k (step e o) = ledger k o ++ of_kind k (arrivals [e]) /\
  drained (step e o).
Proof.
  intros Hd. destruct e as [m| |h|h]; simpl.
  - split; [|apply route_drained, Hd].
    rewrite (route_ledger m o k Hd). unfold arrivals. simpl.
    destruct (seen m); reflexivity.
  - destruct (replay_ledger (open_wait o) k) as [-> Hd']. split; [|assumption].
    rewrite app_nil_r. unfold open_wait.
    destruct (_remoteDescriptionFuture (fields o)); reflexivity.
  - match goal with |- ledger k (replay ?x) = _ /\ _ =>
      destruct (replay_ledger x k) as [-> Hd'] end.
    split; [|assumption]. rewrite app_nil_r. reflexivity.
  - match goal with |- ledger k (replay ?x) = _ /\ _ =>
      destruct (replay_ledger x k) as [-> Hd'] end.
    split; [|assumption]. rewrite app_nil_r. reflexivity.
Qed.

Lemma arrivals_cons (e : event) (es : list event) :
  arrivals (e :: es) = arrivals [e] ++ arrivals es.
Proof.
  unfold arrivals. simpl.
  destruct (match e with Receive m => seen m | _ => None end); reflexivity.
Qed.

Lemma steps_ledger (es : list event) (o : view) (k : kind) :
  drained o ->
  ledger k (fold_left (fun o e => step e o) es o) =
    ledger k o ++ of_kind k (arrivals es) /\
  drained (fold_left (fun o e => step e o) es o).
Proof.
  revert o. induction es as [|e es IH]; intros o Hd.
  - simpl. rewrite app_nil_r. split; [reflexivity|assumption].
  - cbn [fold_left]. destruct (step_ledger e o k Hd) as [He Hd'].
    destruct (IH (step e o) Hd') as [-> Hd'']. split; [|assumption].
    rewrite He, <- app_assoc, <- of_kind_app, <- arrivals_cons. reflexivity.
Qed.

(** A new signalling object in the empty store, as a view. *)
Lemma observe_fresh (class : transport) :
  observe 0 (fresh class) =
    Some {| fields :=
              {| _pendingInboundMessages := [];
                 _remoteDescriptionFuture := None;
                 _remoteCandidateHandler := None;
                 _remoteDataHandler := None;
                 _doneSent := false;
                 _remoteDoneFuture := 0;
                 klass := class |};
            handed := [];
            heap := [Future.new] |}.
Proof. reflexivity. Qed.

Lemma sound_fresh (s : Signaling) :
  _remoteDescriptionFuture s = None -> _remoteDoneFuture s = 0 ->
  _pendingInboundMessages s = [] ->
  sound {| fields := s; handed := []; heap := [Future.new] |}.
Proof.
  intros Hf Hd Hq. repeat split; simpl.
  - rewrite Hf. discriminate.
  - rewrite Hd. lia.
  - rewrite Hq. constructor.
Qed.

Lemma observed_ledger (this : sid) (w : World) (o : view) (k : kind) :
  observe this w = Some o ->
  of_kind k (delivered this w) ++ of_kind k (retained this w) = ledger k o.
Proof.
  unfold observe, delivered, retained.
  destruct (signalings w !! this) as [s|]; [|discriminate].
  intros [= <-]. reflexivity.
Qed.

End Accounting.

(** ** Validation of incoming messages *)

Module ReceiveFacts.

Lemma value_of_default (ty : option value) (val : option value) :
  value_of (default_value {| msg_type := ty; msg_value := val |}) =
  default VNull val.
Proof. destruct val; reflexivity. Qed.

Lemma default_value_eq (ty : option value) (val : option value) :
  default_value {| msg_type := ty; msg_value := val |} =
  {| msg_type := ty; msg_value := Some (default VNull val) |}.
Proof. destruct val; reflexivity. Qed.

Lemma push_inbound_run (this : sid) (m : message) (w : World) (s : Signaling) :
  signalings w !! this = Some s ->
  eval (push_inbound this m) w = Ok tt /\
  inbound this (exec (push_inbound this m) w) = inbound this w ++ [m] /\
  deliveries (exec (push_inbound this m) w) = deliveries w /\
  futures (exec (push_inbound this m) w) = futures w.
Proof.
  intros Hs. pose proof (lookup_lt_Some _ _ _ Hs) as Hlt.
  unfold eval, exec, push_inbound, bind, load, store, inbound. rewrite Hs. simpl.
  rewrite list_lookup_insert_eq by exact Hlt. auto.
Qed.

Lemma resolve_run (H : Host) (this : sid) (c : consumer) (f : fid) (v : value)
    (p : Future.t) (w : World) :
  c = DescriptionWait f \/ c = DoneWait f ->
  futures w !! f = Some p -> Future.st p = Future.Pending ->
  eval (deliver this c v) w = Ok tt /\
  awaited (Some f) (exec (deliver this c v) w) = Some (Future.Fulfilled v).
Proof.
  intros Hc Hp Hst.
  unfold eval, exec, deliver, bind, trace, future_resolve, on_future.
  destruct Hc as [-> | ->]; simpl; rewrite Hp;
    unfold Future.resolve, Future.settle; rewrite Hst; simpl;
    (split; [reflexivity|]);
    rewrite list_lookup_insert_eq by exact (lookup_lt_Some _ _ _ Hp);
    reflexivity.
Qed.

End ReceiveFacts.

(** C7. Whatever the handlers do: a message without a [type] raises the
    unreachable assertion and changes nothing; a message whose [type] is none
    of ['description'], ['candidate'], ['data'], ['done'] raises the
    unreachable assertion, whose description is the template literal with
    that type, and changes nothing; a message of one of the four types goes to
    the routine of that type, with its value if it has one and with [null] if
    it has none.  So without a consumer it is queued with that value, a wait or
    the remote-done future that is pending is fulfilled with that value, and a
    registered handler is called with that value. *)
Theorem receiveMessage_validates (H : Host) (this : sid) (w : World) :
  (forall m, msg_type m = None ->
     _receiveMessage this m w =
       (Throw (AssertUnreached
                 (Literal "(Signaling) Invalid message, did not contain a 'type' field")),
        w)) /\
  (forall ty val,
     ty <> VStr "description" -> ty <> VStr "candidate" ->
     ty <> VStr "data" -> ty <> VStr "done" ->
     _receiveMessage this {| msg_type := Some ty; msg_value := val |} w =
       (Throw (AssertUnreached (Template "(Signaling) Unknown message type: " ty)),
        w)) /\
  (forall t val,
     let m := {| msg_type := Some (VStr t); msg_value := val |} in
     let m' := {| msg_type := Some (VStr t); msg_value := Some (default VNull val) |} in
     (t = "description" ->
      _receiveMessage this m w = _handleRemoteDescription this m' w) /\
     (t = "candidate" ->
      _receiveMessage this m w = _handleRemoteCandidate this m' w) /\
     (t = "data" -> _receiveMessage this m w = _handleData this m' w) /\
     (t = "done" -> _receiveMessage this m w = _handleDone this m' w)) /\
  (forall s val,
     signalings w !! this = Some s ->
     let payload := default VNull val in
     let arrives t :=
       _receiveMessage this {| msg_type := Some (VStr t); msg_value := val |} in
     let queued t :=
       eval (arrives t) w = Ok tt /\
       inbound this (exec (arrives t) w) =
         inbound this w ++ [{| msg_type := Some (VStr t); msg_value := Some payload |}] /\
       deliveries (exec (arrives t) w) = deliveries w /\
       futures (exec (arrives t) w) = futures w in
     let called t c h :=
       arrives t w = host_call h payload (exec (trace this c payload) w) in
     let fulfilled t f :=
       forall p, futures w !! f = Some p -> Future.st p = Future.Pending ->
                 eval (arrives t) w = Ok tt /\
                 awaited (Some f) (exec (arrives t) w) =
                   Some (Future.Fulfilled payload) in
     match _remoteDescriptionFuture s with
     | None => queued "description"
     | Some f => fulfilled "description" f
     end /\
     match _remoteCandidateHandler s with
     | None => queued "candidate"
     | Some h => called "candidate" (CandidateHandler h) h
     end /\
     match _remoteDataHandler s with
     | None => queued "data"
     | Some h => called "data" (DataHandler h) h
     end /\
     fulfilled "done" (_remoteDoneFuture s)).
Proof.
  split; [|split; [|split]].
  - intros m Hm. unfold _receiveMessage. rewrite Hm. reflexivity.
  - intros ty val Hd Hc Hda Hdo. unfold _receiveMessage. simpl.
    rewrite !decide_False by assumption. reflexivity.
  - intros t val m m'. repeat split; intros ->; destruct val; reflexivity.
  - intros s val Hs payload arrives queued called fulfilled.
    assert (Harrives : forall t,
               arrives t w =
               _receiveMessage this
                 {| msg_type := Some (VStr t); msg_value := Some payload |} w).
    { intros t. unfold arrives, _receiveMessage. simpl.
      rewrite ReceiveFacts.default_value_eq. reflexivity. }
    split; [|split; [|split]].
    + destruct (_remoteDescriptionFuture s) as [f|] eqn:Hf.
      * intros p Hp Hst.
        assert (Hrun : arrives "description" w =
                       deliver this (DescriptionWait f) payload
                         (exec (store this (with_remoteDescriptionFuture None s)) w)).
        { rewrite Harrives. unfold _receiveMessage. simpl.
          unfold _handleRemoteDescription, bind, load. rewrite Hs, Hf.
          reflexivity. }
        unfold eval, exec at 1. rewrite Hrun.
        apply (ReceiveFacts.resolve_run H this (DescriptionWait f) f payload p);
          [left; reflexivity|exact Hp|exact Hst].
      * assert (Hrun : arrives "description" w =
                       push_inbound this
                         {| msg_type := Some (VStr "description");
                            msg_value := Some payload |} w).
        { rewrite Harrives. unfold _receiveMessage. simpl.
          unfold _handleRemoteDescription, bind, load. rewrite Hs, Hf.
          reflexivity. }
        unfold queued, eval, exec. rewrite Hrun.
        exact (ReceiveFacts.push_inbound_run this _ w s Hs).
    + destruct (_remoteCandidateHandler s) as [h|] eqn:Hh.
      * unfold called. rewrite Harrives. unfold _receiveMessage. simpl.
        unfold _handleRemoteCandidate, bind, load. rewrite Hs, Hh.
        reflexivity.
      * assert (Hrun : arrives "candidate" w =
                       push_inbound this
                         {| msg_type := Some (VStr "candidate");
                            msg_value := Some payload |} w).
        { rewrite Harrives. unfold _receiveMessage. simpl.
          unfold _handleRemoteCandidate, bind, load. rewrite Hs, Hh.
          reflexivity. }
        unfold queued, eval, exec. rewrite Hrun.
        exact (ReceiveFacts.push_inbound_run this _ w s Hs).
    + destruct (_remoteDataHandler s) as [h|] eqn:Hh.
      * unfold called. rewrite Harrives. unfold _receiveMessage. simpl.
        unfold _handleData, bind, load. rewrite Hs, Hh.
        reflexivity.
      * assert (Hrun : arrives "data" w =
                       push_inbound this
                         {| msg_type := Some (VStr "data");
                            msg_value := Some payload |} w).
        { rewrite Harrives. unfold _receiveMessage. simpl.
          unfold _handleData, bind, load. rewrite Hs, Hh.
          reflexivity. }
        unfold queued, eval, exec. rewrite Hrun.
        exact (ReceiveFacts.push_inbound_run this _ w s Hs).
    + intros p Hp Hst.
      assert (Hrun : arrives "done" w =
                     deliver this (DoneWait (_remoteDoneFuture s)) payload w).
      { rewrite Harrives. unfold _receiveMessage. simpl.
        unfold _handleDone, bind, load. rewrite Hs. reflexivity. }
      unfold eval, exec. rewrite Hrun.
      apply (ReceiveFacts.resolve_run H this (DoneWait (_remoteDoneFuture s))
               (_remoteDoneFuture s) payload p);
        [right; reflexivity|exact Hp|exact Hst].
Qed.

Lemma receiveMessage_validates_witness :
  _receiveMessage 0 {| msg_type := None; msg_value := Some (VNum 1) |} (fresh Abstract) =
    (Throw (AssertUnreached
              (Literal "(Signaling) Invalid message, did not contain a 'type' field")),
     fresh Abstract) /\
  _receiveMessage 0 {| msg_type := Some (VStr "offer"); msg_value := None |} (fresh Abstract) =
    (Throw (AssertUnreached
              (Template "(Signaling) Unknown message type: " (VStr "offer"))),
     fresh Abstract) /\
  inbound 0 (exec (_receiveMessage 0 {| msg_type := Some (VStr "data");
                                        msg_value := None |}) (fresh Abstract)) =
    [{| msg_type := Some (VStr "data"); msg_value := Some VNull |}] /\
  awaited (Some 0)
    (exec (_receiveMessage 0 {| msg_type := Some (VStr "done"); msg_value := None |})
          (fresh Abstract)) = Some (Future.Fulfilled VNull) /\
  _receiveMessage 0 {| msg_type := Some (VStr "candidate"); msg_value := None |}
    (fresh Abstract) =
  _handleRemoteCandidate 0
    {| msg_type := Some (VStr "candidate"); msg_value := Some VNull |}
    (fresh Abstract).
Proof.
  destruct (receiveMessage_validates quiet 0 (fresh Abstract))
    as (Hmissing & Hunknown & Htyped & Heffect).
  destruct (Heffect
              {| _pendingInboundMessages := [];
                 _remoteDescriptionFuture := None;
                 _remoteCandidateHandler := None;
                 _remoteDataHandler := None;
                 _doneSent := false;
                 _remoteDoneFuture := 0;
                 klass := Abstract |} None eq_refl)
    as (_ & _ & (_ & Hdata & _) & Hdone).
  destruct (Htyped "candidate" None) as (_ & Hcandidate & _).
  split; [apply Hmissing; reflexivity|].
  split; [apply (Hunknown (VStr "offer") None); discriminate|].
  split; [exact Hdata|].
  split; [exact (proj2 (Hdone Future.new eq_refl eq_refl))|].
  exact (Hcandidate eq_refl).
Defined.

(** ** Asking for the remote description *)

(** C2 fails on the code.  Asked before the description arrives,
    [receiveRemoteDescription] returns a future, and the arrival fulfils it
    with the payload: a caller that awaits the returned value is resumed with
    the payload.  Asked after the description has arrived and was queued, it
    makes a future, the replay fulfils that future with the payload and clears
    the field, and the method then returns the field: [null].  A caller that
    awaits the returned value is resumed with [null], not with the payload. *)
Theorem receiveRemoteDescription_after_arrival_returns_null
    (class : transport) (payload : value) (caller : Future.awaiter) :
  let m := envelope "description" payload in
  let ask_and_await := r <- receiveRemoteDescription 0 ;; await caller r in
  let asked_first := exec (receiveRemoteDescription 0) (fresh class) in
  let arrived_first := exec (_receiveMessage 0 m) (fresh class) in
  (eval (receiveRemoteDescription 0) (fresh class) = Ok (Some 1) /\
   awaited (Some 1) (exec (_receiveMessage 0 m) asked_first) =
     Some (Future.Fulfilled payload) /\
   microtasks (exec (ask_and_await ;;; _receiveMessage 0 m) (fresh class)) =
     [(caller, Future.Fulfilled payload)]) /\
  (retained 0 arrived_first = [(Description, payload)] /\
   eval (receiveRemoteDescription 0) arrived_first = Ok None /\
   awaited None (exec (receiveRemoteDescription 0) arrived_first) =
     Some (Future.Fulfilled VNull) /\
   awaited (Some 1) (exec (receiveRemoteDescription 0) arrived_first) =
     Some (Future.Fulfilled payload) /\
   microtasks (exec ask_and_await arrived_first) =
     [(caller, Future.Fulfilled VNull)]).
Proof. repeat split. Qed.

(** ** The loopback exchange *)

(** X2. On a new loopback pair the exchange succeeds when the answerer asks
    before the offer is sent: the answerer's wait is fulfilled with the offer,
    and the offerer's wait, opened right after sending, is pending until the
    answer is sent and is then fulfilled with the answer. *)
Lemma loopback_exchange_answerer_first (offer answer : value) :
  let w0 := exec loopback_pair empty_world in
  let w1 := exec (exchangeDescriptions_wait 1) w0 in
  let w2 := exec (exchangeDescriptions_offer 0 offer) w1 in
  let w3 := exec (exchangeDescriptions_answer 1 answer) w2 in
  eval loopback_pair empty_world = Ok (0, 1) /\
  eval (exchangeDescriptions_wait 1) w0 = Ok (Some 2) /\
  eval (exchangeDescriptions_offer 0 offer) w1 = Ok (Some 3) /\
  awaited (Some 2) w2 = Some (Future.Fulfilled offer) /\
  awaited (Some 3) w2 = None /\
  awaited (Some 3) w3 = Some (Future.Fulfilled answer).
Proof. repeat split. Qed.

(** C6 fails on the code when the offer is sent before the answerer enters
    [exchangeDescriptions]: the offer is queued at the answerer, whose
    [receiveRemoteDescription] then returns [null], so that the answerer
    awaits [null] instead of the offer. *)
Theorem loopback_exchange_offer_first_yields_null (offer : value) :
  let w0 := exec loopback_pair empty_world in
  let w1 := exec (exchangeDescriptions_offer 0 offer) w0 in
  let w2 := exec (exchangeDescriptions_wait 1) w1 in
  eval loopback_pair empty_world = Ok (0, 1) /\
  retained 1 w1 = [(Description, offer)] /\
  eval (exchangeDescriptions_wait 1) w1 = Ok None /\
  awaited None w2 = Some (Future.Fulfilled VNull).
Proof. repeat split. Qed.

(** ** Description waits *)

Module Waits.
Import Router.

(** The payloads of the descriptions among some messages. *)
Local Abbreviation descriptions ms := (of_kind Description (omap seen ms)).
Local Abbreviation slot o := (_remoteDescriptionFuture (fields o)).

Lemma omap_seen_cons (m : message) (ms : list message) :
  omap seen (m :: ms) =
    match seen m with Some e => e :: omap seen ms | None => omap seen ms end.
Proof. reflexivity. Qed.

Lemma of_kind_cons (k : kind) (e : kind * value) (l : list (kind * value)) :
  of_kind k (e :: l) =
    if decide (e.1 = k) then e.2 :: of_kind k l else of_kind k l.
Proof. unfold of_kind. simpl. case_decide; reflexivity. Qed.

(** What one routed message does to the descriptions of a view. *)
Lemma route_descriptions (m : message) (o : view) :
  let ds := descriptions [m] in
  of_kind Description (handed_envelopes (route m o)) =
    of_kind Description (handed_envelopes o) ++
    (match slot o with Some _ => ds | None => [] end) /\
  of_kind Description (retained_envelopes (route m o)) =
    of_kind Description (retained_envelopes o) ++
    (match slot o with Some _ => [] | None => ds end) /\
  slot (route m o) = (match ds with [] => slot o | _ => None end).
Proof.
  unfold route. rewrite omap_seen_cons.
  destruct (seen m) as [[k v]|] eqn:Hkv.
  2:{ simpl. destruct (slot o); rewrite ?app_nil_r; repeat split. }
  rewrite of_kind_cons. cbn [fst snd omap list_omap of_kind].
  destruct (consumer_for k (fields o)) as [c|] eqn:Hc.
  - unfold handed_envelopes, retained_envelopes. cbn [handed fields].
    rewrite map_app, Accounting.of_kind_app. cbn [map fst snd].
    rewrite (Accounting.consumer_for_kind _ _ _ Hc), Accounting.of_kind_one.
    destruct k; simpl in *; destruct (slot o); try discriminate;
      rewrite ?app_nil_r; repeat split.
  - unfold handed_envelopes, retained_envelopes.
    cbn [handed fields with_pendingInboundMessages _pendingInboundMessages
         _remoteDescriptionFuture].
    rewrite omap_app.
    replace (omap seen [default_value m]) with [(k, v)]
      by (simpl; rewrite RouterFacts.seen_default_value, Hkv; reflexivity).
    rewrite Accounting.of_kind_app, Accounting.of_kind_one.
    destruct k; simpl in *; destruct (slot o); try discriminate;
      rewrite ?app_nil_r; repeat split.
Qed.

(** A replay with a wait open hands over the oldest description and retains
    the others; with no wait open it retains them all. *)
Lemma route_all_descriptions (ms : list message) (o : view) :
  let ds := descriptions ms in
  of_kind Description (handed_envelopes (route_all ms o)) =
    of_kind Description (handed_envelopes o) ++
    (match slot o with Some _ => take 1 ds | None => [] end) /\
  of_kind Description (retained_envelopes (route_all ms o)) =
    of_kind Description (retained_envelopes o) ++
    (match slot o with Some _ => drop 1 ds | None => ds end) /\
  slot (route_all ms o) = (match ds with [] => slot o | _ => None end).
Proof.
  revert o. induction ms as [|m ms IH]; intros o.
  - simpl. destruct (slot o); rewrite ?app_nil_r; repeat split.
  - cbn [route_all fold_left]. fold (route_all ms (route m o)).
    destruct (IH (route m o)) as (Hh & Hr & Hs).
    destruct (route_descriptions m o) as (Hh1 & Hr1 & Hs1).
    cbv zeta in *. rewrite Hh, Hr, Hs, Hh1, Hr1, Hs1. clear.
    rewrite !omap_seen_cons.
    destruct (seen m) as [[k v]|]; cbn [omap list_omap].
    2:{ simpl. destruct (slot o); rewrite ?app_nil_r; repeat split. }
    rewrite !of_kind_cons. cbn [fst snd].
    destruct (decide (k = Description)) as [->|Hk].
    + destruct (slot o), (descriptions ms); simpl;
        rewrite <- ?app_assoc, ?app_nil_r; repeat split.
    + destruct (slot o), (descriptions ms); simpl;
        rewrite ?app_nil_r; repeat split.
Qed.

Lemma replay_descriptions (o : view) :
  let rs := of_kind Description (retained_envelopes o) in
  of_kind Description (handed_envelopes (replay o)) =
    of_kind Description (handed_envelopes o) ++
    (match slot o with Some _ => take 1 rs | None => [] end) /\
  of_kind Description (retained_envelopes (replay o)) =
    (match slot o with Some _ => drop 1 rs | None => rs end) /\
  slot (replay o) = (match rs with [] => slot o | _ => None end).
Proof.
  unfold replay.
  match goal with |- context [route_all ?ms ?o0] =>
    destruct (route_all_descriptions ms o0) as (Hh & Hr & Hs) end.
  cbv zeta in *. rewrite Hh, Hr, Hs. repeat split.
Qed.

Lemma open_wait_slot (o : view) :
  slot (open_wait o) =
    Some (match slot o with Some f => f | None => length (heap o) end).
Proof. unfold open_wait. destruct (slot o) eqn:Hf; simpl; congruence. Qed.

Lemma open_wait_envelopes (o : view) :
  handed_envelopes (open_wait o) = handed_envelopes o /\
  retained_envelopes (open_wait o) = retained_envelopes o.
Proof. unfold open_wait. destruct (slot o); split; reflexivity. Qed.

(** Asking for the remote description takes the oldest retained
    description, if there is one, and no other. *)
Lemma ask_descriptions (o : view) :
  let rs := of_kind Description (retained_envelopes o) in
  let o' := step ReceiveRemoteDescription o in
  of_kind Description (handed_envelopes o') =
    of_kind Description (handed_envelopes o) ++ take 1 rs /\
  of_kind Description (retained_envelopes o') = drop 1 rs /\
  slot o' = (match rs with [] => slot (open_wait o) | _ => None end).
Proof.
  cbv zeta. cbn [step].
  destruct (replay_descriptions (open_wait o)) as (Hh & Hr & Hs).
  cbv zeta in *. rewrite Hh, Hr, Hs.
  destruct (open_wait_envelopes o) as [-> ->].
  rewrite (open_wait_slot o). repeat split.
Qed.

Lemma route_heap_length (m : message) (o : view) :
  length (heap (route m o)) = length (heap o).
Proof.
  unfold route. destruct (seen m) as [[k v]|]; [|reflexivity].
  destruct (consumer_for k (fields o)); [|reflexivity].
  apply RouterFacts.settle_in_length.
Qed.

Lemma route_all_heap_length (ms : list message) (o : view) :
  length (heap (route_all ms o)) = length (heap o).
Proof.
  revert o. induction ms as [|m ms IH]; intros o; [reflexivity|].
  cbn [route_all fold_left]. fold (route_all ms (route m o)).
  rewrite IH. apply route_heap_length.
Qed.

Lemma route_waiting (m : message) (o : view) : waiting o -> waiting (route m o).
Proof.
  intros Hw. unfold route.
  destruct (seen m) as [[k v]|] eqn:Hkv; [|assumption].
  destruct (consumer_for k (fields o)) as [c|] eqn:Hc.
  - destruct k; simpl in Hc.
    + intros f Hf. discriminate.
    + destruct (_remoteCandidateHandler (fields o)); [|discriminate].
      injection Hc as <-. exact Hw.
    + destruct (_remoteDataHandler (fields o)); [|discriminate].
      injection Hc as <-. exact Hw.
    + injection Hc as <-. intros f Hf. cbn [fields after_delivery heap] in *.
      destruct (Hw f Hf) as (Hne & p & Hp & Hst). split; [exact Hne|].
      exists p. split; [|exact Hst]. simpl.
      destruct (heap o !! _remoteDoneFuture (fields o)); [|exact Hp].
      rewrite list_lookup_insert_ne by congruence. exact Hp.
  - exact Hw.
Qed.

Lemma route_all_waiting (ms : list message) (o : view) :
  waiting o -> waiting (route_all ms o).
Proof.
  revert o. induction ms as [|m ms IH]; intros o Hw; [assumption|].
  cbn [route_all fold_left]. apply IH, route_waiting, Hw.
Qed.

Lemma replay_waiting (o : view) : waiting o -> waiting (replay o).
Proof. intros Hw. apply route_all_waiting. exact Hw. Qed.

Lemma open_wait_waiting (o : view) : sound o -> waiting o -> waiting (open_wait o).
Proof.
  intros (_ & Hdone & _) Hw. unfold open_wait.
  destruct (slot o) eqn:Hf; [exact Hw|].
  intros f [= <-]. cbn [fields heap with_remoteDescriptionFuture _remoteDoneFuture].
  split; [lia|]. exists Future.new. split; [|reflexivity].
  rewrite lookup_app_r by lia. rewrite Nat.sub_diag. reflexivity.
Qed.

Lemma step_waiting (e : event) (o : view) :
  sound o -> waiting o -> waiting (step e o).
Proof.
  intros Ho Hw. destruct e; cbn [step].
  - apply route_waiting, Hw.
  - apply replay_waiting, open_wait_waiting; assumption.
  - apply replay_waiting. exact Hw.
  - apply replay_waiting. exact Hw.
Qed.

Lemma step_steady (e : event) (o : view) : steady o -> steady (step e o).
Proof.
  intros (Ho & Hd & Hw). split; [|split].
  - apply RouterFacts.step_sound, Ho.
  - apply (Accounting.step_ledger e o Description Hd).
  - apply step_waiting; assumption.
Qed.

Lemma steps_steady (es : list event) (o : view) :
  steady o -> steady (fold_left (fun o e => step e o) es o).
Proof.
  revert o. induction es as [|e es IH]; intros o Ho; [assumption|].
  apply IH, step_steady, Ho.
Qed.

(** The view of a store reached from a new object, and that it is steady. *)
Lemma reached (class : transport) (es : list event) :
  exists o, observe 0 (occur_all 0 es (fresh class)) = Some o /\ steady o.
Proof.
  pose proof (Accounting.observe_fresh class) as Hobs.
  destruct (RouterFacts.occur_all_refines 0 es _ _ Hobs) as [Hobs' _].
  { apply Accounting.sound_fresh; reflexivity. }
  eexists. split; [exact Hobs'|].
  apply steps_steady. split; [|split].
  - apply Accounting.sound_fresh; reflexivity.
  - intros k _. reflexivity.
  - intros f [=].
Qed.

Lemma observe_inv (this : sid) (w : World) (o : view) :
  observe this w = Some o ->
  signalings w !! this = Some (fields o) /\
  deliveries_at this w = handed o /\
  futures w = heap o.
Proof.
  unfold observe. destruct (signalings w !! this); [|discriminate].
  intros [= <-]. repeat split.
Qed.

Lemma observed_envelopes (this : sid) (w : World) (o : view) :
  observe this w = Some o ->
  delivered this w = handed_envelopes o /\ retained this w = retained_envelopes o.
Proof.
  unfold observe, delivered, retained.
  destruct (signalings w !! this); [|discriminate].
  intros [= <-]. split; reflexivity.
Qed.

(** An open wait stays open, and the same, as long as no description
    arrives. *)
Lemma step_keeps_wait (e : event) (o : view) (f : fid) :
  drained o -> slot o = Some f ->
  of_kind Description (arrivals [e]) = [] ->
  slot (step e o) = Some f.
Proof.
  intros Hd Hf He.
  assert (Hnone : of_kind Description (retained_envelopes o) = []).
  { apply Hd. simpl. rewrite Hf. discriminate. }
  destruct e as [m| |h|h]; cbn [step].
  - destruct (route_descriptions m o) as (_ & _ & ->). cbv zeta.
    change (arrivals [Receive m]) with (omap seen [m]) in He.
    rewrite He. exact Hf.
  - destruct (ask_descriptions o) as (_ & _ & Hs). cbv zeta in Hs.
    cbn [step] in Hs. rewrite Hs, Hnone, open_wait_slot, Hf. reflexivity.
  - match goal with |- context [replay ?o'] =>
      destruct (replay_descriptions o') as (_ & _ & ->) end.
    cbv zeta. unfold retained_envelopes in *. cbn [fields] in *.
    cbn [with_remoteCandidateHandler _pendingInboundMessages _remoteDescriptionFuture].
    rewrite Hnone. exact Hf.
  - match goal with |- context [replay ?o'] =>
      destruct (replay_descriptions o') as (_ & _ & ->) end.
    cbv zeta. unfold retained_envelopes in *. cbn [fields] in *.
    cbn [with_remoteDataHandler _pendingInboundMessages _remoteDescriptionFuture].
    rewrite Hnone. exact Hf.
Qed.

Lemma steps_keep_wait (es : list event) (o : view) (f : fid) :
  steady o -> slot o = Some f ->
  of_kind Description (arrivals es) = [] ->
  slot (fold_left (fun o e => step e o) es o) = Some f.
Proof.
  revert o. induction es as [|e es IH]; intros o Ho Hf Hes; [exact Hf|].
  rewrite Accounting.arrivals_cons, Accounting.of_kind_app in Hes.
  apply app_eq_nil in Hes as [He Hes].
  cbn [fold_left]. apply IH.
  - apply step_steady, Ho.
  - apply step_keeps_wait; [apply Ho|assumption..].
  - exact Hes.
Qed.

(** A description that meets an open wait fulfils its future. *)
Lemma route_fulfils (m : message) (o : view) (f : fid) (v : value) :
  waiting o -> slot o = Some f -> seen m = Some (Description, v) ->
  fields (route m o) = with_remoteDescriptionFuture None (fields o) /\
  handed (route m o) = handed o ++ [(DescriptionWait f, v)] /\
  exists p, heap (route m o) !! f = Some p /\
            Future.st p = Future.Settled (Future.Fulfilled v).
Proof.
  intros Hw Hf Hkv. destruct (Hw f Hf) as (_ & p & Hp & Hst).
  unfold route. rewrite Hkv. cbn [consumer_for]. rewrite Hf.
  cbn [fmap option_fmap option_map fields handed heap after_delivery settle_in].
  rewrite Hp. repeat split.
  exists (Future.resolve v p).1. split.
  - apply list_lookup_insert_eq. exact (lookup_lt_Some _ _ _ Hp).
  - unfold Future.resolve, Future.settle. rewrite Hst. reflexivity.
Qed.


(** Whenever a description is retained, asking for the remote description
    returns [null]. *)
Lemma ask_after_arrival_returns_null (class : transport) (es : list event) :
  let w := occur_all 0 es (fresh class) in
  of_kind Description (retained 0 w) <> [] ->
  eval (receiveRemoteDescription 0) w = Ok None.
Proof.
  cbv zeta. intros Hqueued.
  destruct (reached class es) as (o & Hobs & Ho & _).
  set (w := occur_all 0 es (fresh class)) in *.
  destruct (RouterFacts.receiveRemoteDescription_refines 0 w o Hobs Ho)
    as (w' & Hrun & _).
  destruct (observed_envelopes 0 w o Hobs) as [_ Hret]. rewrite Hret in Hqueued.
  destruct (ask_descriptions o) as (_ & _ & Hs). cbv zeta in Hs. cbn [step] in Hs.
  unfold eval. rewrite Hrun. cbn [fst]. rewrite Hs.
  destruct (of_kind Description (retained_envelopes o)); [contradiction|reflexivity].
Qed.

(** Two continuations that await an open wait are both resumed, in turn, with
    the payload of the description that arrives. *)
Lemma both_waits_resumed (this : sid) (w : World) (s : Signaling) (f : fid)
      (p : Future.t) (a1 a2 : Future.awaiter) (v : value) :
  signalings w !! this = Some s ->
  _remoteDescriptionFuture s = Some f ->
  futures w !! f = Some p -> Future.st p = Future.Pending ->
  microtasks
    (exec (await a1 (Some f) ;;; await a2 (Some f) ;;;
           _receiveMessage this (envelope "description" v)) w) =
  microtasks w ++
    map (fun a => (a, Future.Fulfilled v)) (Future.reactions p ++ [a1; a2]).
Proof.
  intros Hs Hf Hp Hst. pose proof (lookup_lt_Some _ _ _ Hp) as Hlt.
  unfold exec, bind at 1, await at 1, on_future. rewrite Hp.
  unfold Future.await at 1. rewrite Hst. cbn [fst snd].
  unfold bind at 1, await, on_future. cbn [futures].
  rewrite list_lookup_insert_eq by exact Hlt.
  unfold Future.await. cbn [Future.st Future.reactions].
  unfold _receiveMessage. cbn [envelope msg_type default_value msg_value].
  rewrite decide_True by reflexivity.
  unfold _handleRemoteDescription, bind, load. cbn [signalings]. rewrite Hs, Hf.
  unfold store, deliver, bind, trace, future_resolve, on_future. cbn [futures].
  rewrite list_lookup_insert_eq by (rewrite length_insert; exact Hlt).
  unfold Future.resolve, Future.settle. cbn [Future.st Future.reactions snd microtasks].
  rewrite !app_nil_r, <- app_assoc. reflexivity.
Qed.

End Waits.

(** The remote-done future keeps what the first [done] envelope brought. *)
Module DoneFutureFacts.
Import Router.

Lemma of_kind_done_snoc (l : list (consumer * value)) (c : consumer) (v : value) :
  of_kind Done (map (fun d => (consumer_kind d.1, d.2)) (l ++ [(c, v)])) =
  of_kind Done (map (fun d => (consumer_kind d.1, d.2)) l) ++
  (if decide (consumer_kind c = Done) then [v] else []).
Proof.
  rewrite map_app, Accounting.of_kind_app. cbn [map fst snd].
  rewrite Accounting.of_kind_one. reflexivity.
Qed.

Lemma route_done_recorded (m : message) (o : view) :
  waiting o -> done_recorded o -> done_recorded (route m o).
Proof.
  intros Hw (p & Hp & Hst). unfold route.
  destruct (seen m) as [[k v]|] eqn:Hkv; [|exists p; split; assumption].
  destruct (consumer_for k (fields o)) as [c|] eqn:Hc.
  2:{ exists p. split; assumption. }
  unfold done_recorded, handed_envelopes. cbn [fields handed heap].
  rewrite of_kind_done_snoc.
  replace (_remoteDoneFuture (after_delivery k (fields o)))
    with (_remoteDoneFuture (fields o)) by (destruct k; reflexivity).
  destruct k; simpl in Hc.
  - destruct (_remoteDescriptionFuture (fields o)) as [f|] eqn:Hf; [|discriminate].
    injection Hc as <-. cbn [consumer_kind settle_in].
    rewrite decide_False by discriminate. rewrite app_nil_r.
    destruct (Hw f Hf) as (Hne & _).
    exists p. split; [|exact Hst].
    destruct (heap o !! f); [|exact Hp].
    rewrite list_lookup_insert_ne by exact Hne. exact Hp.
  - destruct (_remoteCandidateHandler (fields o)); [|discriminate].
    injection Hc as <-. cbn [consumer_kind settle_in].
    rewrite decide_False by discriminate. rewrite app_nil_r.
    exists p. split; assumption.
  - destruct (_remoteDataHandler (fields o)); [|discriminate].
    injection Hc as <-. cbn [consumer_kind settle_in].
    rewrite decide_False by discriminate. rewrite app_nil_r.
    exists p. split; assumption.
  - injection Hc as <-. cbn [consumer_kind settle_in].
    rewrite decide_True by reflexivity. rewrite Hp.
    exists (Future.resolve v p).1. split.
    + apply list_lookup_insert_eq. exact (lookup_lt_Some _ _ _ Hp).
    + unfold Future.resolve, Future.settle. unfold handed_envelopes in Hst.
      destruct (Future.st p) eqn:Hstp; cbn [fst Future.st].
      * destruct (of_kind Done _); [reflexivity|discriminate].
      * rewrite Hstp, Hst.
        destruct (of_kind Done _); [discriminate|reflexivity].
Qed.

Lemma route_all_done_recorded (ms : list message) (o : view) :
  waiting o -> done_recorded o -> done_recorded (route_all ms o).
Proof.
  revert o. induction ms as [|m ms IH]; intros o Hw Hd; [exact Hd|].
  cbn [route_all fold_left]. apply IH.
  - apply Waits.route_waiting, Hw.
  - apply route_done_recorded; assumption.
Qed.

Lemma open_wait_done_recorded (o : view) :
  done_recorded o -> done_recorded (open_wait o).
Proof.
  intros (p & Hp & Hst). unfold open_wait.
  destruct (_remoteDescriptionFuture (fields o)); [exists p; split; assumption|].
  exists p. split; [|exact Hst]. cbn [fields heap with_remoteDescriptionFuture
                                       _remoteDoneFuture].
  rewrite lookup_app_l by exact (lookup_lt_Some _ _ _ Hp). exact Hp.
Qed.

Lemma step_done_recorded (e : event) (o : view) :
  sound o -> waiting o -> done_recorded o -> done_recorded (step e o).
Proof.
  intros Ho Hw Hd. destruct e; cbn [step].
  - apply route_done_recorded; assumption.
  - apply route_all_done_recorded.
    + apply Waits.open_wait_waiting; assumption.
    + apply open_wait_done_recorded, Hd.
  - apply route_all_done_recorded; assumption.
  - apply route_all_done_recorded; assumption.
Qed.

Lemma steps_done_recorded (es : list event) (o : view) :
  steady o -> done_recorded o ->
  done_recorded (fold_left (fun o e => step e o) es o).
Proof.
  revert o. induction es as [|e es IH]; intros o Ho Hd; [exact Hd|].
  cbn [fold_left]. apply IH.
  - apply Waits.step_steady, Ho.
  - destruct Ho as (Ho & _ & Hw). apply step_done_recorded; assumption.
Qed.

End DoneFutureFacts.

(** ** Descriptions go to the futures that the callers hold *)

Module Hands.
Import Router.

Local Abbreviation slot o := (_remoteDescriptionFuture (fields o)).

Lemma waits_served_snoc (l : list (consumer * value)) (c : consumer) (v : value) :
  waits_served (l ++ [(c, v)]) =
  waits_served l ++
    match c with DescriptionWait f => [(f, v)] | _ => [] end.
Proof. unfold waits_served. rewrite omap_app. destruct c; reflexivity. Qed.

Lemma answered_mono (R R' : list (result (option fid))) (o : view) :
  answered R o -> answered (R ++ R') o.
Proof.
  intros [Hslot Hserved]. split.
  - intros f Hf. apply in_or_app. left. exact (Hslot f Hf).
  - intros f v Hin. destruct (Hserved f v Hin) as (HR & Hrest).
    split; [apply in_or_app; left; exact HR|exact Hrest].
Qed.

Lemma route_answered (R : list (result (option fid))) (m : message) (o : view) :
  waiting o -> answered R o -> answered R (route m o).
Proof.
  intros Hw [Hslot Hserved]. unfold route.
  destruct (seen m) as [[k v]|] eqn:Hkv; [|split; assumption].
  destruct (consumer_for k (fields o)) as [c|] eqn:Hc; [|split; assumption].
  destruct k; simpl in Hc.
  - destruct (slot o) as [f|] eqn:Hf; [|discriminate]. injection Hc as <-.
    destruct (Hw f Hf) as (Hne & p & Hp & Hst).
    split; [intros f' [=]|].
    intros f' v'. cbn [handed heap fields after_delivery settle_in
                       with_remoteDescriptionFuture _remoteDoneFuture].
    rewrite waits_served_snoc, Hp. intros Hin. apply in_app_or in Hin.
    destruct Hin as [Hin|[[= <- <-]|[]]].
    + destruct (Hserved f' v' Hin) as (HR & Hne' & p' & Hp' & Hst').
      split; [exact HR|]. split; [exact Hne'|]. exists p'. split; [|exact Hst'].
      rewrite list_lookup_insert_ne; [exact Hp'|].
      intros <-. rewrite Hp in Hp'. injection Hp' as <-. congruence.
    + split; [exact (Hslot f eq_refl)|]. split; [exact Hne|].
      exists (Future.resolve v p).1. split.
      * apply list_lookup_insert_eq. exact (lookup_lt_Some _ _ _ Hp).
      * unfold Future.resolve, Future.settle. rewrite Hst. reflexivity.
  - destruct (_remoteCandidateHandler (fields o)); [|discriminate].
    injection Hc as <-. split; [exact Hslot|].
    intros f v'. cbn [handed heap fields after_delivery settle_in].
    rewrite waits_served_snoc, app_nil_r. apply Hserved.
  - destruct (_remoteDataHandler (fields o)); [|discriminate].
    injection Hc as <-. split; [exact Hslot|].
    intros f v'. cbn [handed heap fields after_delivery settle_in].
    rewrite waits_served_snoc, app_nil_r. apply Hserved.
  - injection Hc as <-. split; [exact Hslot|].
    intros f v'. cbn [handed heap fields after_delivery settle_in].
    rewrite waits_served_snoc, app_nil_r. intros Hin.
    destruct (Hserved f v' Hin) as (HR & Hne & p & Hp & Hst).
    split; [exact HR|]. split; [exact Hne|]. exists p. split; [|exact Hst].
    destruct (heap o !! _remoteDoneFuture (fields o)); [|exact Hp].
    rewrite list_lookup_insert_ne by congruence. exact Hp.
Qed.

Lemma route_all_answered (R : list (result (option fid))) (ms : list message)
      (o : view) :
  waiting o -> answered R o -> answered R (route_all ms o).
Proof.
  revert o. induction ms as [|m ms IH]; intros o Hw Ha; [exact Ha|].
  cbn [route_all fold_left]. apply IH.
  - apply Waits.route_waiting, Hw.
  - apply route_answered; assumption.
Qed.

(** A replay leaves the open wait as it is or closes it. *)
Lemma replay_slot (o : view) (f : fid) :
  slot (replay o) = Some f -> slot o = Some f.
Proof.
  destruct (Waits.replay_descriptions o) as (_ & _ & ->). cbv zeta.
  destruct (of_kind Description (retained_envelopes o)); [auto|discriminate].
Qed.

Lemma step_answered (R : list (result (option fid))) (e : event) (o : view) :
  sound o -> waiting o -> answered R o ->
  match e with
  | ReceiveRemoteDescription =>
      slot (step e o) <> None ->
      answered (R ++ [Ok (slot (step e o))]) (step e o)
  | _ => answered R (step e o)
  end.
Proof.
  intros Ho Hw Ha. destruct e as [m| |h|h]; cbn [step].
  - apply route_answered; assumption.
  - intros Hsome.
    destruct (slot (replay (open_wait o))) as [f|] eqn:Hf; [|congruence].
    pose proof (replay_slot _ _ Hf) as Hopen.
    apply route_all_answered.
    + apply (Waits.open_wait_waiting o Ho Hw).
    + destruct Ha as [Hslot Hserved]. split.
      * cbn [fields with_pendingInboundMessages _remoteDescriptionFuture].
        rewrite Hopen. intros f' [= <-]. apply in_or_app. right. left. reflexivity.
      * intros f' v Hin.
        assert (Hin' : In (f', v) (waits_served (handed o))).
        { revert Hin. unfold open_wait. destruct (slot o); exact (fun x => x). }
        destruct (Hserved f' v Hin') as (HR & Hne & p & Hp & Hst).
        split; [apply in_or_app; left; exact HR|].
        split.
        { revert Hne. unfold open_wait. destruct (slot o); exact (fun x => x). }
        exists p. split; [|exact Hst].
        unfold open_wait. destruct (slot o); cbn [heap]; [exact Hp|].
        rewrite lookup_app_l by exact (lookup_lt_Some _ _ _ Hp). exact Hp.
  - apply route_all_answered; [exact Hw|exact Ha].
  - apply route_all_answered; [exact Hw|exact Ha].
Qed.

(** In a run in which no call of [receiveRemoteDescription] returned [null],
    every description handed over went to a future that a call returned. *)
Lemma run_answered (es : list event) :
  forall (w : World) (o : view) (R : list (result (option fid))),
    observe 0 w = Some o -> steady o -> answered R o ->
    Forall (fun r => r <> Ok None) (answers 0 es w) ->
    answered (R ++ answers 0 es w) (fold_left (fun o e => step e o) es o).
Proof.
  induction es as [|e es IH]; intros w o R Hobs Ho Ha Hall.
  - cbn. rewrite app_nil_r. exact Ha.
  - cbn [answers] in *. apply Forall_app in Hall as [He Hrest].
    pose proof (RouterFacts.occur_refines 0 e w o Hobs (proj1 Ho)) as Hobs'.
    pose proof (Waits.step_steady e o Ho) as Ho'.
    pose proof (step_answered R e o (proj1 Ho) (proj2 (proj2 Ho)) Ha) as Hstep.
    cbn [fold_left]. rewrite app_assoc.
    apply (IH (occur 0 e w) (step e o)); [exact Hobs'|exact Ho'| |exact Hrest].
    destruct e as [m| |h|h]; try (rewrite app_nil_r; exact Hstep).
    destruct (RouterFacts.receiveRemoteDescription_refines 0 w o Hobs (proj1 Ho))
      as (w' & Hrun & _).
    unfold eval in *. rewrite Hrun in *. cbn [fst] in *.
    apply Hstep. inversion He as [|? ? Hne _]; subst.
    intros Hnone. apply Hne. cbn [step] in Hnone. rewrite Hnone. reflexivity.
Qed.

End Hands.
(** C1, as the code has it, for handlers that return at once, leaving the
    store as it is and calling nothing.  Run any sequence of incoming messages
    and consumer registrations on a new signalling object.  For each of the
    kinds candidate, data and done, the envelopes of that kind that arrived
    are, in arrival order, exactly those handed to the kind's consumer
    followed by those still retained in the queue: each is accounted for once,
    none is lost or duplicated, and within a kind the order of arrival is kept
    across every registration; while a consumer for the kind is ready, nothing
    of that kind stays in the queue; and the remote-done future holds the
    first [done] payload handed to it.  If moreover every call of
    [receiveRemoteDescription] in the run returned a future, the same holds of
    the description envelopes, and each description handed over fulfilled a
    future that one of the calls returned.  (Between kinds the order of
    arrival is not kept, and an envelope whose consumer never registers stays
    retained.) *)
Theorem envelopes_accounted_per_kind
    (H : Host) (class : transport) (es : list event) :
  returns_quietly H ->
  let w := occur_all 0 es (fresh class) in
  let accounted k :=
    of_kind k (arrivals es) =
      of_kind k (delivered 0 w) ++ of_kind k (retained 0 w) /\
    (forall s, signalings w !! 0 = Some s ->
               Router.consumer_for k s <> None ->
               of_kind k (retained 0 w) = []) in
  accounted Candidate /\
  accounted Data /\
  (accounted Done /\
   forall s, signalings w !! 0 = Some s ->
     awaited (Some (_remoteDoneFuture s)) w =
       match of_kind Done (delivered 0 w) with
       | [] => None
       | v :: _ => Some (Future.Fulfilled v)
       end) /\
  (Forall (fun r => r <> Ok None) (answers 0 es (fresh class)) ->
   accounted Description /\
   forall f v, In (f, v) (waits_served (deliveries_at 0 w)) ->
     In (Ok (Some f)) (answers 0 es (fresh class)) /\
     awaited (Some f) w = Some (Future.Fulfilled v)).
Proof.
  intros Hquiet. cbv zeta.
  rewrite (HostFacts.occur_all_quiet H Hquiet), (HostFacts.answers_quiet H Hquiet).
  pose proof (Accounting.observe_fresh class) as Hobs0.
  match type of Hobs0 with _ = Some ?o => set (o0 := o) in * end.
  assert (Hsteady0 : Router.steady o0).
  { split; [apply Accounting.sound_fresh; reflexivity|].
    split; [intros k _; reflexivity|intros f [=]]. }
  destruct (RouterFacts.occur_all_refines 0 es _ o0 Hobs0 (proj1 Hsteady0))
    as [Hobs _].
  set (w := occur_all 0 es (fresh class)) in *.
  set (o := fold_left (fun o e => Router.step e o) es o0) in *.
  destruct (Waits.observe_inv 0 w o Hobs) as (Hfields & Hhanded & Hheap).
  assert (Hacc : forall k,
             of_kind k (arrivals es) =
               of_kind k (delivered 0 w) ++ of_kind k (retained 0 w) /\
             (forall s, signalings w !! 0 = Some s ->
                        Router.consumer_for k s <> None ->
                        of_kind k (retained 0 w) = [])).
  { intros k.
    destruct (Accounting.steps_ledger es o0 k) as [Hl Hd];
      [intros k' _; reflexivity|]. fold o in Hl, Hd.
    split.
    - rewrite (Accounting.observed_ledger 0 w o k Hobs), Hl. reflexivity.
    - intros s Hs Hready. rewrite Hs in Hfields. injection Hfields as ->.
      unfold retained. rewrite Hs. apply (Hd k). exact Hready. }
  split; [apply Hacc|]. split; [apply Hacc|]. split; [split; [apply Hacc|]|].
  - intros s Hs. rewrite Hs in Hfields. injection Hfields as ->.
    assert (Hrec : done_recorded o).
    { apply DoneFutureFacts.steps_done_recorded; [exact Hsteady0|].
      exists Future.new. split; reflexivity. }
    destruct Hrec as (p & Hp & Hst).
    destruct (Waits.observed_envelopes 0 w o Hobs) as [-> _].
    unfold awaited. rewrite Hheap, Hp, Hst.
    destruct (of_kind Done (Router.handed_envelopes o)); reflexivity.
  - intros Hall. split; [apply Hacc|]. intros f v Hin.
    assert (Ha : answered ([] ++ @answers quiet 0 es (fresh class)) o).
    { apply (Hands.run_answered es (fresh class) o0 []);
        [exact Hobs0|exact Hsteady0| |exact Hall].
      split; [intros f' [=]|intros f' v' []]. }
    rewrite Hhanded in Hin.
    destruct (proj2 Ha f v Hin) as (HR & _ & p & Hp & Hst).
    split; [exact HR|].
    unfold awaited. rewrite Hheap, Hp, Hst. reflexivity.
Qed.

(** C1, as stated, fails: with only the candidate handler registered, a data
    envelope that arrived first is overtaken by a candidate envelope that
    arrived after it.  Both are delivered, in the opposite of their arrival
    order. *)
Lemma arrival_order_not_kept_between_kinds :
  let es := [SetOnRemoteCandidate 1;
             Receive (envelope "data" (VNum 1));
             Receive (envelope "candidate" (VNum 2));
             SetOnRemoteData 2] in
  let w := occur_all 0 es (fresh Abstract) in
  arrivals es = [(Data, VNum 1); (Candidate, VNum 2)] /\
  delivered 0 w = [(Candidate, VNum 2); (Data, VNum 1)] /\
  retained 0 w = [] /\
  is_subsequence (delivered 0 w) (arrivals es) = false.
Proof. vm_compute. repeat split. Qed.

Lemma envelopes_accounted_per_kind_witness :
  let es := [Receive (envelope "candidate" (VNum 1));
             ReceiveRemoteDescription;
             Receive (envelope "description" (VNum 5));
             Receive (envelope "data" (VNum 2));
             SetOnRemoteCandidate 7;
             Receive (envelope "candidate" (VNum 3));
             Receive (envelope "done" (VNum 9))] in
  let w := occur_all 0 es (fresh Abstract) in
  of_kind Candidate (arrivals es) =
    of_kind Candidate (delivered 0 w) ++ of_kind Candidate (retained 0 w) /\
  of_kind Candidate (retained 0 w) = [] /\
  awaited (Some 0) w = Some (Future.Fulfilled (VNum 9)) /\
  In (Ok (Some 1)) (answers 0 es (fresh Abstract)) /\
  awaited (Some 1) w = Some (Future.Fulfilled (VNum 5)).
Proof.
  intros es w.
  destruct (envelopes_accounted_per_kind quiet Abstract es
              (fun _ _ _ => eq_refl))
    as ((Hledger & Hdrained) & _ & (_ & Hdone) & Hdescriptions).
  split; [exact Hledger|].
  split; [eapply Hdrained; [reflexivity|discriminate]|].
  split; [exact (Hdone _ eq_refl)|].
  destruct Hdescriptions as [_ Hserved].
  { repeat constructor. discriminate. }
  apply (Hserved 1 (VNum 5)). left. reflexivity.
Defined.

(** The proviso on the handlers is needed.  A handler that makes a further
    candidate arrive while it runs is called with that candidate before the
    replay reaches the candidates that arrived earlier and are still to be
    replayed. *)
Lemma handler_that_feeds_the_router_overtakes :
  let w := occur_all 0 [Receive (envelope "candidate" (VNum 1));
                        Receive (envelope "candidate" (VNum 2))]
                     (fresh Abstract) in
  let feeds := feeding 0 (envelope "candidate" (VNum 3)) in
  let w' := exec (@set_onRemoteCandidate feeds 0 7) w in
  retained 0 w = [(Candidate, VNum 1); (Candidate, VNum 2)] /\
  delivered 0 w' =
    [(Candidate, VNum 1); (Candidate, VNum 3);
     (Candidate, VNum 2); (Candidate, VNum 3)] /\
  retained 0 w' = [].
Proof. vm_compute. repeat split. Qed.





(** C9. When a call of [receiveRemoteDescription] has returned a future and
    no description has arrived since, a second call returns that same future
    and makes no new one; the future is still pending, and the next
    description that arrives fulfils it with its payload, so that two
    continuations that await the two returned values are both resumed with
    that payload. *)
Theorem second_wait_is_the_same_future
    (class : transport) (before between : list event) (f : fid) (payload : value) :
  let w := occur_all 0 before (fresh class) in
  eval (receiveRemoteDescription 0) w = Ok (Some f) ->
  of_kind Description (arrivals between) = [] ->
  let w2 := occur_all 0 between (exec (receiveRemoteDescription 0) w) in
  let w3 := exec (receiveRemoteDescription 0) w2 in
  eval (receiveRemoteDescription 0) w2 = Ok (Some f) /\
  length (futures w3) = length (futures w2) /\
  awaited (Some f) w3 = None /\
  awaited (Some f) (exec (_receiveMessage 0 (envelope "description" payload)) w3) =
    Some (Future.Fulfilled payload) /\
  (forall a1 a2 : Future.awaiter, exists earlier,
     microtasks
       (exec (await a1 (Some f) ;;; await a2 (Some f) ;;;
              _receiveMessage 0 (envelope "description" payload)) w3) =
     microtasks w3 ++
       map (fun a => (a, Future.Fulfilled payload)) (earlier ++ [a1; a2])).
Proof.
  cbv zeta. intros Hfirst Hbetween.
  destruct (Waits.reached class before) as (o & Hobs & Ho).
  set (w := occur_all 0 before (fresh class)) in *.
  (* the first call *)
  destruct (RouterFacts.receiveRemoteDescription_refines 0 w o Hobs (proj1 Ho))
    as (w1 & Hrun1 & Hobs1).
  unfold eval, exec in *. rewrite Hrun1 in *. cbn [fst snd] in *.
  injection Hfirst as Hslot1.
  pose proof (Waits.step_steady ReceiveRemoteDescription o Ho) as Ho1.
  cbn [Router.step] in Ho1.
  (* the events in between *)
  destruct (RouterFacts.occur_all_refines 0 between w1 _ Hobs1 (proj1 Ho1))
    as [Hobs2 _].
  pose proof (Waits.steps_steady between _ Ho1) as Ho2.
  pose proof (Waits.steps_keep_wait between _ f Ho1 Hslot1 Hbetween) as Hslot2.
  set (w2 := occur_all 0 between w1) in *.
  set (o2 := fold_left (fun o e => Router.step e o) between
               (Router.replay (Router.open_wait o))) in *.
  (* the second call *)
  destruct (RouterFacts.receiveRemoteDescription_refines 0 w2 o2 Hobs2 (proj1 Ho2))
    as (w3 & Hrun3 & Hobs3).
  pose proof (Waits.step_steady ReceiveRemoteDescription o2 Ho2) as Ho3.
  pose proof (Waits.step_keeps_wait ReceiveRemoteDescription o2 f
                (proj1 (proj2 Ho2)) Hslot2 eq_refl) as Hslot3.
  cbn [Router.step] in Ho3, Hslot3.
  rewrite Hrun3. cbn [fst snd].
  destruct (Waits.observe_inv 0 w2 _ Hobs2) as (_ & _ & Hheap2).
  destruct (Waits.observe_inv 0 w3 _ Hobs3) as (_ & _ & Hheap3).
  split; [rewrite Hslot3; reflexivity|].
  split.
  { rewrite Hheap3. rewrite Hheap2. unfold Router.replay.
    rewrite Waits.route_all_heap_length. unfold Router.open_wait.
    rewrite Hslot2. reflexivity. }
  destruct Ho3 as (Hsound3 & _ & Hwait3).
  split.
  { destruct (Hwait3 f Hslot3) as (_ & p & Hp & Hst).
    unfold awaited. rewrite Hheap3, Hp, Hst. reflexivity. }
  split.
  { destruct (RouterFacts.receive_refines 0 (envelope "description" payload) w3 _
                Hobs3 Hsound3) as (w4 & Hrun4 & Hobs4); [discriminate|].
    rewrite Hrun4. cbn [snd].
    destruct (Waits.observe_inv 0 w4 _ Hobs4) as (_ & _ & Hheap4).
    destruct (Waits.route_fulfils (envelope "description" payload) _ f payload
                Hwait3 Hslot3 eq_refl) as (_ & _ & p & Hp & Hst).
    unfold awaited. rewrite Hheap4, Hp, Hst. reflexivity. }
  intros a1 a2.
  destruct (Hwait3 f Hslot3) as (_ & p & Hp & Hst).
  destruct (Waits.observe_inv 0 w3 _ Hobs3) as (Hfields3 & _ & _).
  exists (Future.reactions p).
  rewrite <- Hheap3 in Hp.
  exact (Waits.both_waits_resumed 0 w3 _ f p a1 a2 payload Hfields3 Hslot3 Hp Hst).
Qed.

Lemma second_wait_is_the_same_future_witness :
  let w := occur_all 0 [Receive (envelope "candidate" (VNum 1))] (fresh Abstract) in
  let between := [SetOnRemoteCandidate 5; Receive (envelope "data" (VNum 2))] in
  let w2 := occur_all 0 between (exec (receiveRemoteDescription 0) w) in
  let w3 := exec (receiveRemoteDescription 0) w2 in
  eval (receiveRemoteDescription 0) w2 = Ok (Some 1) /\
  length (futures w3) = length (futures w2) /\
  awaited (Some 1) w3 = None /\
  awaited (Some 1) (exec (_receiveMessage 0 (envelope "description" (VStr "offer"))) w3) =
    Some (Future.Fulfilled (VStr "offer")) /\
  (forall a1 a2 : Future.awaiter, exists earlier,
     microtasks
       (exec (await a1 (Some 1) ;;; await a2 (Some 1) ;;;
              _receiveMessage 0 (envelope "description" (VStr "offer"))) w3) =
     microtasks w3 ++
       map (fun a => (a, Future.Fulfilled (VStr "offer"))) (earlier ++ [a1; a2])).
Proof.
  exact (second_wait_is_the_same_future Abstract
           [Receive (envelope "candidate" (VNum 1))]
           [SetOnRemoteCandidate 5; Receive (envelope "data" (VNum 2))]
           1 (VStr "offer") eq_refl eq_refl).
Defined.

(** ** The relay transport *)

Module RelayFacts.

Lemma ready_state_inv (this : sid) (w : World) (rs : Z) :
  ready_state this w = Some rs ->
  exists s pending ws,
    signalings w !! this = Some s /\ klass s = Relay pending ws /\
    readyState ws = rs /\ outbound this w = pending /\ wire this w = sent ws.
Proof.
  unfold ready_state, outbound, wire.
  destruct (signalings w !! this) as [s|]; [|discriminate].
  destruct (klass s) as [|?|pending ws] eqn:Hk; try discriminate.
  intros [= <-]. exists s, pending, ws. rewrite Hk. repeat split.
Qed.

Lemma relay_after_store (this : sid) (w : World) (s s' : Signaling)
      (pending : list message) (ws : WebSocket) :
  signalings w !! this = Some s -> klass s' = Relay pending ws ->
  let w' := exec (store this s') w in
  ready_state this w' = Some (readyState ws) /\
  outbound this w' = pending /\ wire this w' = sent ws.
Proof.
  intros Hs Hk. unfold ready_state, outbound, wire, exec, store. simpl.
  rewrite list_lookup_insert_eq by exact (lookup_lt_Some _ _ _ Hs).
  rewrite Hk. repeat split.
Qed.

(** A send while the socket is not open only joins the cache. *)
Lemma send_not_open (this : sid) (m : message) (w : World) (rs : Z) :
  ready_state this w = Some rs -> rs <> OPEN ->
  exists w', _sendMessage this m w = (Ok tt, w') /\
             ready_state this w' = Some rs /\
             outbound this w' = outbound this w ++ [m] /\
             wire this w' = wire this w.
Proof.
  intros Hrs Hne.
  destruct (ready_state_inv this w rs Hrs) as (s & pending & ws & Hs & Hk & <- & -> & ->).
  unfold _sendMessage, bind, load. rewrite Hs, Hk.
  assert (Hb : (readyState ws =? 1)%Z = false) by (apply Z.eqb_neq; exact Hne).
  rewrite Hb. cbn [negb].
  eexists. split; [reflexivity|].
  apply (relay_after_store this w s _ (pending ++ [m]) ws Hs). reflexivity.
Qed.

(** A send while the socket is open goes on the wire. *)
Lemma send_open (this : sid) (m : message) (w : World) :
  ready_state this w = Some OPEN ->
  exists w', _sendMessage this m w = (Ok tt, w') /\
             ready_state this w' = Some OPEN /\
             outbound this w' = outbound this w /\
             wire this w' = wire this w ++ [m].
Proof.
  intros Hrs.
  destruct (ready_state_inv this w _ Hrs) as (s & pending & ws & Hs & Hk & Hopen & -> & ->).
  unfold _sendMessage, bind, load. rewrite Hs, Hk, Hopen. cbn [negb Z.eqb OPEN].
  eexists. split; [reflexivity|].
  destruct (relay_after_store this w s (with_klass (Relay pending (ws_send m ws)) s)
              pending (ws_send m ws) Hs eq_refl) as (H1 & H2 & H3).
  cbn [ws_send readyState sent] in *. rewrite Hopen in H1. repeat split; assumption.
Qed.

Lemma sends_not_open (this : sid) (ms : list message) (w : World) (rs : Z) :
  ready_state this w = Some rs -> rs <> OPEN ->
  exists w', for_of ms (_sendMessage this) w = (Ok tt, w') /\
             ready_state this w' = Some rs /\
             outbound this w' = outbound this w ++ ms /\
             wire this w' = wire this w.
Proof.
  revert w. induction ms as [|m ms IH]; intros w Hrs Hne.
  - exists w. rewrite app_nil_r. repeat split; assumption.
  - destruct (send_not_open this m w rs Hrs Hne) as (w1 & Hrun & Hrs1 & Hout1 & Hwire1).
    destruct (IH w1 Hrs1 Hne) as (w2 & Hrun2 & Hrs2 & Hout2 & Hwire2).
    exists w2. cbn [for_of]. unfold bind. rewrite Hrun.
    split; [exact Hrun2|]. split; [exact Hrs2|].
    rewrite Hout2, Hout1, Hwire2, Hwire1, <- app_assoc. split; reflexivity.
Qed.

Lemma sends_open (this : sid) (ms : list message) (w : World) :
  ready_state this w = Some OPEN ->
  exists w', for_of ms (_sendMessage this) w = (Ok tt, w') /\
             ready_state this w' = Some OPEN /\
             outbound this w' = outbound this w /\
             wire this w' = wire this w ++ ms.
Proof.
  revert w. induction ms as [|m ms IH]; intros w Hrs.
  - exists w. rewrite app_nil_r. repeat split; assumption.
  - destruct (send_open this m w Hrs) as (w1 & Hrun & Hrs1 & Hout1 & Hwire1).
    destruct (IH w1 Hrs1) as (w2 & Hrun2 & Hrs2 & Hout2 & Hwire2).
    exists w2. cbn [for_of]. unfold bind. rewrite Hrun.
    split; [exact Hrun2|]. split; [exact Hrs2|].
    rewrite Hout2, Hout1, Hwire2, Hwire1, <- app_assoc. split; reflexivity.
Qed.

(** With the socket open, the open handler sends what the cache holds from
    index [i] on, in order, and needs one unit of fuel per message and one
    to leave the loop. *)
Lemma onopen_flushes (fuel i : nat) (this : sid) (w : World) :
  ready_state this w = Some OPEN ->
  length (outbound this w) - i < fuel ->
  exists w', onopen_from fuel i this w = (Ok tt, w') /\
             ready_state this w' = Some OPEN /\
             outbound this w' = outbound this w /\
             wire this w' = wire this w ++ drop i (outbound this w).
Proof.
  revert i w. induction fuel as [|fuel IH]; intros i w Hrs Hfuel; [lia|].
  destruct (ready_state_inv this w _ Hrs) as (s & pending & ws & Hs & Hk & Hopen & Hout & Hwire).
  cbn [onopen_from]. unfold bind at 1, load at 1. rewrite Hs, Hk.
  destruct (pending !! i) as [m|] eqn:Hm.
  - destruct (send_open this m w Hrs) as (w1 & Hrun & Hrs1 & Hout1 & Hwire1).
    destruct (IH (S i) w1 Hrs1) as (w2 & Hrun2 & Hrs2 & Hout2 & Hwire2).
    { rewrite Hout1. apply lookup_lt_Some in Hm. rewrite Hout in *. lia. }
    exists w2. unfold bind. rewrite Hrun.
    split; [exact Hrun2|]. split; [exact Hrs2|].
    rewrite Hout2, Hwire2, Hwire1, !Hout1, Hout, <- app_assoc.
    split; [reflexivity|]. f_equal. symmetry. apply drop_S. exact Hm.
  - exists w. split; [reflexivity|]. split; [exact Hrs|]. split; [reflexivity|].
    rewrite Hout, drop_ge, app_nil_r; [reflexivity|].
    apply lookup_ge_None. exact Hm.
Qed.

Lemma set_readyState_relay (this : sid) (w : World) (rs rs' : Z) :
  ready_state this w = Some rs ->
  exists w', set_readyState this rs' w = (Ok tt, w') /\
             ready_state this w' = Some rs' /\
             outbound this w' = outbound this w /\
             wire this w' = wire this w.
Proof.
  intros Hrs.
  destruct (ready_state_inv this w _ Hrs) as (s & pending & ws & Hs & Hk & _ & -> & ->).
  unfold set_readyState, bind, load. rewrite Hs, Hk.
  eexists. split; [reflexivity|].
  apply (relay_after_store this w s _ pending {| readyState := rs'; sent := sent ws |} Hs).
  reflexivity.
Qed.

Lemma ws_open_flushes (fuel : nat) (this : sid) (w : World) (rs : Z) :
  ready_state this w = Some rs ->
  length (outbound this w) < fuel ->
  exists w', ws_open fuel this w = (Ok tt, w') /\
             ready_state this w' = Some OPEN /\
             outbound this w' = outbound this w /\
             wire this w' = wire this w ++ outbound this w.
Proof.
  intros Hrs Hfuel.
  destruct (set_readyState_relay this w rs OPEN Hrs) as (w1 & Hrun1 & Hrs1 & Hout1 & Hwire1).
  destruct (onopen_flushes fuel 0 this w1 Hrs1) as (w2 & Hrun2 & Hrs2 & Hout2 & Hwire2).
  { rewrite Hout1. lia. }
  exists w2. unfold ws_open, bind. rewrite Hrun1.
  split; [exact Hrun2|]. split; [exact Hrs2|].
  rewrite Hout2, Hwire2, Hout1, Hwire1. split; reflexivity.
Qed.

End RelayFacts.

(** C3. On a new [WebSocketSignaling], the messages sent before the socket
    opens are cached and none is on the wire; when the open event fires, the
    handler returns and has put exactly those messages on the wire, in the
    order they were sent; every message sent after that is appended to the
    wire by the send itself, so behind all the cached ones.  In any store, a
    send on a socket that is not open only joins the cache, and a send on an
    open socket goes on the wire at once. *)
Theorem relay_sends_in_order (pre post : list message) (fuel : nat) :
  length pre < fuel ->
  let w0 := exec new_WebSocketSignaling empty_world in
  let w1 := exec (for_of pre (_sendMessage 0)) w0 in
  let w2 := exec (ws_open fuel 0) w1 in
  let w3 := exec (for_of post (_sendMessage 0)) w2 in
  (wire 0 w1 = [] /\ outbound 0 w1 = pre) /\
  (eval (ws_open fuel 0) w1 = Ok tt /\ wire 0 w2 = pre) /\
  wire 0 w3 = pre ++ post /\
  (forall this w m rs,
     ready_state this w = Some rs -> rs <> OPEN ->
     wire this (exec (_sendMessage this m) w) = wire this w /\
     outbound this (exec (_sendMessage this m) w) = outbound this w ++ [m]) /\
  (forall this w m,
     ready_state this w = Some OPEN ->
     wire this (exec (_sendMessage this m) w) = wire this w ++ [m] /\
     outbound this (exec (_sendMessage this m) w) = outbound this w).
Proof.
  intros Hfuel. cbv zeta. unfold exec, eval.
  set (w0 := (new_WebSocketSignaling empty_world).2).
  assert (Hrs0 : ready_state 0 w0 = Some CONNECTING) by reflexivity.
  destruct (RelayFacts.sends_not_open 0 pre w0 CONNECTING Hrs0)
    as (w1 & Hrun1 & Hrs1 & Hout1 & Hwire1); [discriminate|].
  rewrite Hrun1. cbn [fst snd].
  change (outbound 0 w0) with (@nil message) in Hout1.
  change (wire 0 w0) with (@nil message) in Hwire1.
  cbn [app] in Hout1.
  destruct (RelayFacts.ws_open_flushes fuel 0 w1 CONNECTING Hrs1)
    as (w2 & Hrun2 & Hrs2 & Hout2 & Hwire2); [rewrite Hout1; exact Hfuel|].
  rewrite Hrun2. cbn [fst snd].
  destruct (RelayFacts.sends_open 0 post w2 Hrs2)
    as (w3 & Hrun3 & Hrs3 & Hout3 & Hwire3).
  rewrite Hrun3. cbn [fst snd].
  rewrite Hwire1 in Hwire2. rewrite Hout1 in Hwire2. cbn [app] in Hwire2.
  split; [split; assumption|].
  split; [split; [reflexivity|assumption]|].
  split; [rewrite Hwire3, Hwire2; reflexivity|].
  split.
  - intros this w m rs Hrs Hne.
    destruct (RelayFacts.send_not_open this m w rs Hrs Hne) as (w' & Hrun & _ & Ho & Hw).
    rewrite Hrun. split; assumption.
  - intros this w m Hrs.
    destruct (RelayFacts.send_open this m w Hrs) as (w' & Hrun & _ & Ho & Hw).
    rewrite Hrun. split; assumption.
Qed.

Lemma relay_sends_in_order_witness :
  let pre := [envelope "description" (VStr "offer"); envelope "candidate" (VNum 1)] in
  let post := [envelope "data" (VNum 2)] in
  let w0 := exec new_WebSocketSignaling empty_world in
  let w1 := exec (for_of pre (_sendMessage 0)) w0 in
  let w2 := exec (ws_open 3 0) w1 in
  let w3 := exec (for_of post (_sendMessage 0)) w2 in
  wire 0 w1 = [] /\ wire 0 w2 = pre /\ wire 0 w3 = pre ++ post /\
  outbound 0 (exec (_sendMessage 0 (envelope "data" VNull)) w0) = [envelope "data" VNull] /\
  wire 0 (exec (_sendMessage 0 (envelope "data" VNull)) w2) = pre ++ [envelope "data" VNull].
Proof.
  intros pre post w0 w1 w2 w3.
  destruct (relay_sends_in_order pre post 3 ltac:(simpl; lia))
    as ((Hw1 & _) & (_ & Hw2) & Hw3 & Hclosed & Hopen).
  split; [exact Hw1|]. split; [exact Hw2|]. split; [exact Hw3|].
  split.
  - apply (Hclosed 0 w0 (envelope "data" VNull) CONNECTING); [reflexivity|discriminate].
  - apply (Hopen 0 w2 (envelope "data" VNull)). reflexivity.
Defined.

(** ** done *)

Module DoneFacts.

Lemma done_again (this : sid) (r : value) (w : World) (s : Signaling) :
  signalings w !! this = Some s -> _doneSent s = true ->
  _done this r w = (Ok (_remoteDoneFuture s), w).
Proof.
  intros Hs Hsent. unfold _done, bind, load. rewrite Hs, Hsent. simpl.
  rewrite Hs. reflexivity.
Qed.

Lemma done_first (this : sid) (r : value) (w w1 : World) (s s1 : Signaling) :
  signalings w !! this = Some s -> _doneSent s = false ->
  _sendMessage this (envelope "done" r) w = (Ok tt, w1) ->
  signalings w1 !! this = Some s1 ->
  _done this r w =
    (Ok (_remoteDoneFuture s1), exec (store this (with_doneSent true s1)) w1).
Proof.
  intros Hs Hsent Hsend Hs1. unfold _done, bind at 1, load at 1.
  rewrite Hs, Hsent. cbn [negb]. unfold bind at 1. unfold bind at 1.
  rewrite Hsend. unfold bind at 1, load at 1. rewrite Hs1.
  unfold store, bind, load, exec. cbn [fst snd signalings].
  rewrite list_lookup_insert_eq by exact (lookup_lt_Some _ _ _ Hs1).
  reflexivity.
Qed.

Lemma done_repeated (this : sid) (rs : list value) (w : World) (s : Signaling) :
  signalings w !! this = Some s -> _doneSent s = true ->
  call_each (_done this) rs w = (Ok (repeat (_remoteDoneFuture s) (length rs)), w).
Proof.
  intros Hs Hsent. induction rs as [|r rs IH]; [reflexivity|].
  cbn [call_each]. unfold bind at 1. rewrite (done_again this r w s Hs Hsent).
  unfold bind at 1. rewrite IH. reflexivity.
Qed.

(** Once the first call has sent, the later calls only return the future. *)
Lemma done_calls (this : sid) (first : value) (rest : list value)
      (w w1 : World) (s s1 : Signaling) :
  signalings w !! this = Some s -> _doneSent s = false ->
  _sendMessage this (envelope "done" first) w = (Ok tt, w1) ->
  signalings w1 !! this = Some s1 ->
  call_each (_done this) (first :: rest) w =
    (Ok (repeat (_remoteDoneFuture s1) (S (length rest))),
     exec (store this (with_doneSent true s1)) w1).
Proof.
  intros Hs Hsent Hsend Hs1. cbn [call_each]. unfold bind at 1.
  rewrite (done_first this first w w1 s s1 Hs Hsent Hsend Hs1).
  unfold bind at 1.
  rewrite (done_repeated this rest _ (with_doneSent true s1)).
  - reflexivity.
  - unfold exec, store. cbn [snd signalings].
    apply list_lookup_insert_eq. exact (lookup_lt_Some _ _ _ Hs1).
  - reflexivity.
Qed.

(** A [done] envelope handed to a loopback peer. *)
Lemma receive_done (other : sid) (v : value) (w : World) (peer : Signaling) :
  signalings w !! other = Some peer ->
  _remoteDoneFuture peer < length (futures w) ->
  exists w', _receiveMessage other (envelope "done" v) w = (Ok tt, w') /\
             signalings w' = signalings w /\
             deliveries w' = deliveries w ++
               [{| d_at := other; d_to := DoneWait (_remoteDoneFuture peer);
                   d_payload := v |}] /\
             awaited (Some (_remoteDoneFuture peer)) w' =
               match awaited (Some (_remoteDoneFuture peer)) w with
               | Some o => Some o
               | None => Some (Future.Fulfilled v)
               end.
Proof.
  intros Hpeer Hlt.
  destruct (RouterFacts.sound_future_lookup _ _ Hlt) as [p Hp].
  unfold _receiveMessage. cbn [envelope msg_type default_value msg_value].
  rewrite decide_False by discriminate. rewrite decide_False by discriminate.
  rewrite decide_False by discriminate. rewrite decide_True by reflexivity.
  unfold _handleDone, bind, load. rewrite Hpeer.
  unfold deliver, bind, trace, future_resolve, on_future.
  change (value_of (envelope "done" v)) with v. cbn [futures].
  rewrite Hp.
  destruct (Future.resolve v p) as [p' jobs] eqn:Hres.
  eexists. split; [reflexivity|]. cbn [signalings deliveries].
  split; [reflexivity|]. split; [reflexivity|].
  unfold awaited. cbn [futures]. rewrite Hp.
  rewrite list_lookup_insert_eq by exact Hlt.
  unfold Future.resolve, Future.settle in Hres.
  destruct (Future.st p) eqn:Hst; injection Hres as <- <-.
  - reflexivity.
  - rewrite Hst. reflexivity.
Qed.


End DoneFacts.

(** C4. On a signalling object that has not sent [done] yet, one or more
    calls of [_done] hand exactly one [done] envelope to the transport, with
    the argument of the first call, and every call returns the object's
    remote-done future.  On a relay object the envelope goes on the wire when
    the socket is open and into the cache otherwise; on a loopback object it
    is delivered to the peer's remote-done future. *)
Theorem done_is_sent_once
    (this : sid) (w : World) (s : Signaling) (first : value) (rest : list value) :
  signalings w !! this = Some s ->
  _doneSent s = false ->
  let calls := call_each (_done this) (first :: rest) in
  (forall pending ws,
     klass s = Relay pending ws ->
     eval calls w = Ok (repeat (_remoteDoneFuture s) (S (length rest))) /\
     if (readyState ws =? OPEN)%Z
     then wire this (exec calls w) = sent ws ++ [envelope "done" first] /\
          outbound this (exec calls w) = pending
     else outbound this (exec calls w) = pending ++ [envelope "done" first] /\
          wire this (exec calls w) = sent ws) /\
  (forall other peer,
     klass s = Loopback (Some other) ->
     signalings w !! other = Some peer ->
     _remoteDoneFuture peer < length (futures w) ->
     eval calls w = Ok (repeat (_remoteDoneFuture s) (S (length rest))) /\
     deliveries (exec calls w) =
       deliveries w ++
       [{| d_at := other; d_to := DoneWait (_remoteDoneFuture peer);
           d_payload := first |}]).
Proof.
  intros Hs Hsent. cbv zeta. pose proof (lookup_lt_Some _ _ _ Hs) as Hlt. split.
  - intros pending ws Hk.
    assert (Hsend : exists s1,
      _sendMessage this (envelope "done" first) w = (Ok tt, exec (store this s1) w) /\
      _remoteDoneFuture s1 = _remoteDoneFuture s /\
      klass s1 =
        if (readyState ws =? OPEN)%Z
        then Relay pending (ws_send (envelope "done" first) ws)
        else Relay (pending ++ [envelope "done" first]) ws).
    { unfold _sendMessage, bind, load. rewrite Hs, Hk. unfold OPEN.
      destruct (readyState ws =? 1)%Z; cbn [negb]; eexists; repeat split. }
    destruct Hsend as (s1 & Hsend & Hf & Hk1).
    assert (Hs1 : signalings (exec (store this s1) w) !! this = Some s1).
    { unfold exec, store. cbn [snd signalings].
      apply list_lookup_insert_eq. exact Hlt. }
    unfold eval, exec.
    rewrite (DoneFacts.done_calls this first rest w _ s s1 Hs Hsent Hsend Hs1).
    cbn [fst snd]. rewrite Hf. split; [reflexivity|].
    unfold wire, outbound, exec, store. cbn [snd signalings].
    rewrite list_insert_insert_eq.
    rewrite list_lookup_insert_eq by exact Hlt.
    cbn [klass with_doneSent]. rewrite Hk1.
    destruct (readyState ws =? OPEN)%Z; split; reflexivity.
  - intros other peer Hk Hpeer Hdone.
    destruct (DoneFacts.receive_done other first w peer Hpeer Hdone)
      as (w1 & Hrun & Hsig & Hdel & _).
    assert (Hsend : _sendMessage this (envelope "done" first) w = (Ok tt, w1)).
    { unfold _sendMessage, bind, load. rewrite Hs, Hk. exact Hrun. }
    assert (Hs1 : signalings w1 !! this = Some s) by (rewrite Hsig; exact Hs).
    unfold eval, exec.
    rewrite (DoneFacts.done_calls this first rest w w1 s s Hs Hsent Hsend Hs1).
    cbn [fst snd]. split; [reflexivity|]. exact Hdel.
Qed.

Lemma done_is_sent_once_witness :
  (let w := exec new_WebSocketSignaling empty_world in
   let calls := call_each (_done 0) [VNum 1; VNum 2; VNum 3] in
   eval calls w = Ok [0; 0; 0] /\
   outbound 0 (exec calls w) = [envelope "done" (VNum 1)] /\
   wire 0 (exec calls w) = []) /\
  (let w := exec loopback_pair empty_world in
   let calls := call_each (_done 0) [VNum 1; VNum 2] in
   eval calls w = Ok [0; 0] /\
   deliveries (exec calls w) =
     [{| d_at := 1; d_to := DoneWait 1; d_payload := VNum 1 |}]).
Proof.
  split.
  - intros w calls.
    destruct (done_is_sent_once 0 w
                {| _pendingInboundMessages := [];
                   _remoteDescriptionFuture := None;
                   _remoteCandidateHandler := None;
                   _remoteDataHandler := None;
                   _doneSent := false;
                   _remoteDoneFuture := 0;
                   klass := Relay [] {| readyState := CONNECTING; sent := [] |} |}
                (VNum 1) [VNum 2; VNum 3] eq_refl eq_refl) as [Hrelay _].
    destruct (Hrelay _ _ eq_refl) as [Hret Hsent]. exact (conj Hret Hsent).
  - intros w calls.
    destruct (done_is_sent_once 0 w
                {| _pendingInboundMessages := [];
                   _remoteDescriptionFuture := None;
                   _remoteCandidateHandler := None;
                   _remoteDataHandler := None;
                   _doneSent := false;
                   _remoteDoneFuture := 0;
                   klass := Loopback (Some 1) |}
                (VNum 1) [VNum 2] eq_refl eq_refl) as [_ Hloop].
    apply (Hloop 1
             {| _pendingInboundMessages := [];
                _remoteDescriptionFuture := None;
                _remoteCandidateHandler := None;
                _remoteDataHandler := None;
                _doneSent := false;
                _remoteDoneFuture := 1;
                klass := Loopback (Some 0) |} eq_refl eq_refl).
    simpl. lia.
Defined.

(** ** The completion hook *)



(** * Further properties *)

(** ** What the inbound queue holds *)

Module QueueFacts.
Import Router.

Lemma waits_after_delivery (k : kind) (s : Signaling) (m : message) :
  waits_for_consumer s m -> waits_for_consumer (after_delivery k s) m.
Proof.
  intros (k' & v & Hseen & Hval & Hnone). exists k', v.
  split; [exact Hseen|]. split; [exact Hval|].
  destruct k; try exact Hnone. destruct k'; try exact Hnone. reflexivity.
Qed.

Lemma waits_with_queue (q : list message) (s : Signaling) (m : message) :
  waits_for_consumer s m -> waits_for_consumer (with_pendingInboundMessages q s) m.
Proof.
  intros (k & v & Hseen & Hval & Hnone). exists k, v.
  split; [exact Hseen|]. split; [exact Hval|]. destruct k; exact Hnone.
Qed.

Lemma default_value_present (m : message) :
  msg_value (default_value m) = Some (value_of (default_value m)).
Proof. destruct m as [ty [v|]]; reflexivity. Qed.

Lemma seen_value (m : message) (k : kind) (v : value) :
  seen m = Some (k, v) -> v = value_of (default_value m).
Proof. unfold seen. destruct (kind_of m); [|discriminate]. congruence. Qed.

Lemma route_queue_waits (m : message) (o : view) :
  queue_waits o -> queue_waits (route m o).
Proof.
  intros Hq. unfold route, queue_waits in *.
  destruct (seen m) as [[k v]|] eqn:Hkv; [|exact Hq].
  destruct (consumer_for k (fields o)) as [c|] eqn:Hc; cbn [fields].
  - replace (_pendingInboundMessages (after_delivery k (fields o)))
      with (_pendingInboundMessages (fields o)) by (destruct k; reflexivity).
    eapply Forall_impl; [exact Hq|]. intros m'. apply waits_after_delivery.
  - cbn [with_pendingInboundMessages _pendingInboundMessages].
    apply Forall_app. split.
    + eapply Forall_impl; [exact Hq|]. intros m'. apply waits_with_queue.
    + constructor; [|constructor]. exists k, v.
      rewrite RouterFacts.seen_default_value, default_value_present.
      split; [exact Hkv|]. split; [f_equal; symmetry; exact (seen_value m k v Hkv)|].
      destruct k; exact Hc.
Qed.

Lemma route_all_queue_waits (ms : list message) (o : view) :
  queue_waits o -> queue_waits (route_all ms o).
Proof.
  revert o. induction ms as [|m ms IH]; intros o Hq; [exact Hq|].
  cbn [route_all fold_left]. apply IH, route_queue_waits, Hq.
Qed.

Lemma replay_queue_waits (o : view) : queue_waits (replay o).
Proof. apply route_all_queue_waits. constructor. Qed.

Lemma step_queue_waits (e : event) (o : view) :
  queue_waits o -> queue_waits (step e o).
Proof.
  intros Hq. destruct e; cbn [step];
    [apply route_queue_waits, Hq | apply replay_queue_waits..].
Qed.

Lemma steps_queue_waits (es : list event) (o : view) :
  queue_waits o -> queue_waits (fold_left (fun o e => step e o) es o).
Proof.
  revert o. induction es as [|e es IH]; intros o Hq; [exact Hq|].
  apply IH, step_queue_waits, Hq.
Qed.

(** The view of a reachable store, with all that is known of it. *)
Lemma reached_waits (class : transport) (es : list event) :
  exists o, observe 0 (occur_all 0 es (fresh class)) = Some o /\
            steady o /\ queue_waits o.
Proof.
  pose proof (Accounting.observe_fresh class) as Hobs.
  destruct (RouterFacts.occur_all_refines 0 es _ _ Hobs) as [Hobs' _].
  { apply Accounting.sound_fresh; reflexivity. }
  eexists. split; [exact Hobs'|]. split.
  - apply Waits.steps_steady. split; [|split].
    + apply Accounting.sound_fresh; reflexivity.
    + intros k _. reflexivity.
    + intros f [=].
  - apply steps_queue_waits. constructor.
Qed.

End QueueFacts.

(** X7. In every store that incoming messages and registrations lead to, each
    message in the inbound queue is an envelope of kind description,
    candidate or data that carries a value, and no consumer for its kind is
    ready: the queue never holds a [done] envelope, a message without a
    value, or an envelope that could have been delivered. *)
Theorem inbound_queue_holds_waiting_envelopes
    (class : transport) (es : list event) (s : Signaling) (m : message) :
  signalings (occur_all 0 es (fresh class)) !! 0 = Some s ->
  m ∈ _pendingInboundMessages s ->
  exists k v,
    seen m = Some (k, v) /\ msg_value m = Some v /\ k <> Done /\
    Router.consumer_for k s = None.
Proof.
  intros Hs Hm.
  destruct (QueueFacts.reached_waits class es) as (o & Hobs & _ & Hq).
  destruct (Waits.observe_inv 0 _ o Hobs) as (Hfields & _ & _).
  rewrite Hs in Hfields. injection Hfields as ->.
  unfold queue_waits in Hq. rewrite Forall_forall in Hq.
  destruct (Hq m Hm) as (k & v & Hseen & Hval & Hnone).
  exists k, v. repeat split; try assumption.
  intros ->. discriminate.
Qed.

Lemma inbound_queue_holds_waiting_envelopes_witness :
  exists k v,
    seen (envelope "data" (VNum 1)) = Some (k, v) /\
    msg_value (envelope "data" (VNum 1)) = Some v /\ k <> Done /\
    Router.consumer_for k
      {| _pendingInboundMessages := [envelope "data" (VNum 1)];
         _remoteDescriptionFuture := None;
         _remoteCandidateHandler := Some 4;
         _remoteDataHandler := None;
         _doneSent := false;
         _remoteDoneFuture := 0;
         klass := Abstract |} = None.
Proof.
  apply (inbound_queue_holds_waiting_envelopes Abstract
           [SetOnRemoteCandidate 4; Receive (envelope "data" (VNum 1))]
           _ (envelope "data" (VNum 1)) eq_refl).
  constructor.
Defined.

(** ** What a registration delivers *)

Module RegistrationFacts.
Import Router.

Lemma with_queue_id (s : Signaling) :
  with_pendingInboundMessages (_pendingInboundMessages s) s = s.
Proof. destruct s; reflexivity. Qed.

Lemma default_value_id (m : message) (v : value) :
  msg_value m = Some v -> default_value m = m.
Proof. unfold default_value. intros ->. reflexivity. Qed.

Lemma seen_kind_of (m : message) (k : kind) (v : value) :
  seen m = Some (k, v) -> kind_of m = Some k.
Proof. unfold seen. destruct (kind_of m); [|discriminate]. congruence. Qed.

Lemma messages_of_cons (k : kind) (m : message) (ms : list message) :
  messages_of k (m :: ms) =
    if decide (kind_of m = Some k) then m :: messages_of k ms else messages_of k ms.
Proof. unfold messages_of. rewrite filter_cons. reflexivity. Qed.

Lemma messages_not_of_cons (k : kind) (m : message) (ms : list message) :
  messages_not_of k (m :: ms) =
    if decide (kind_of m = Some k) then messages_not_of k ms
    else m :: messages_not_of k ms.
Proof.
  unfold messages_not_of. rewrite filter_cons.
  destruct (decide (kind_of m = Some k)) as [H|H].
  - rewrite decide_False by (intros H'; exact (H' H)). reflexivity.
  - rewrite decide_True by exact H. reflexivity.
Qed.

(** A replay in which only the kind [k0] has a consumer, [c], hands the
    messages of that kind to [c] and retains the others, both in order. *)
Lemma route_all_one_consumer (k0 : kind) (c : consumer) (ms : list message)
      (s : Signaling) (hd : list (consumer * value)) (hp : list Future.t) :
  k0 = Candidate \/ k0 = Data ->
  consumer_for k0 s = Some c ->
  Forall (fun m => exists k v, seen m = Some (k, v) /\ msg_value m = Some v /\
                               (k = k0 \/ consumer_for k s = None)) ms ->
  route_all ms {| fields := s; handed := hd; heap := hp |} =
    {| fields :=
         with_pendingInboundMessages
           (_pendingInboundMessages s ++ messages_not_of k0 ms) s;
       handed := hd ++ handed_to c (messages_of k0 ms);
       heap := hp |}.
Proof.
  intros Hk0 Hc. revert s hd Hc.
  induction ms as [|m ms IH]; intros s hd Hc Hms.
  - cbn. rewrite !app_nil_r, with_queue_id. reflexivity.
  - inversion Hms as [|? ? (k & v & Hseen & Hval & Hk) Hrest]; subst.
    pose proof (seen_kind_of m k v Hseen) as Hkind.
    assert (Hv : v = value_of m).
    { rewrite (QueueFacts.seen_value m k v Hseen), (default_value_id m v Hval).
      reflexivity. }
    cbn [route_all fold_left]. fold (route_all ms (route m {| fields := s; handed := hd; heap := hp |})).
    unfold route at 1. rewrite Hseen. cbn [fields handed heap].
    destruct (decide (k = k0)) as [->|Hne].
    + rewrite Hc.
      replace (after_delivery k0 s) with s by (destruct Hk0; subst; reflexivity).
      replace (settle_in c v hp) with hp.
      2:{ destruct Hk0; subst k0; simpl in Hc.
          - destruct (_remoteCandidateHandler s); [|discriminate].
            injection Hc as <-. reflexivity.
          - destruct (_remoteDataHandler s); [|discriminate].
            injection Hc as <-. reflexivity. }
      rewrite (IH s _ Hc Hrest).
      rewrite messages_of_cons, messages_not_of_cons.
      rewrite !decide_True by exact Hkind.
      unfold handed_to. cbn [map]. rewrite <- app_assoc, Hv. reflexivity.
    + destruct Hk as [Hk|Hnone]; [contradiction|]. rewrite Hnone.
      rewrite (default_value_id m v Hval).
      rewrite IH.
      * rewrite messages_of_cons, messages_not_of_cons.
        rewrite !decide_False by (rewrite Hkind; congruence).
        cbn [with_pendingInboundMessages _pendingInboundMessages].
        rewrite <- app_assoc. reflexivity.
      * destruct k0; exact Hc.
      * eapply Forall_impl; [exact Hrest|].
        intros m' (k' & v' & H1 & H2 & H3). exists k', v'.
        split; [exact H1|]. split; [exact H2|].
        destruct H3 as [H3|H3]; [left; exact H3|right].
        destruct k'; exact H3.
Qed.

End RegistrationFacts.

(** With quiet handlers: what a registration hands over and what it leaves
    in the queue. *)
Lemma quiet_registration_delivers_retained
    (class : transport) (es : list event) (h : handler) :
  let w := occur_all 0 es (fresh class) in
  (let w' := exec (set_onRemoteCandidate 0 h) w in
   deliveries_at 0 w' =
     deliveries_at 0 w ++
     handed_to (CandidateHandler h) (messages_of Candidate (inbound 0 w)) /\
   inbound 0 w' = messages_not_of Candidate (inbound 0 w) /\
   futures w' = futures w) /\
  (let w' := exec (set_onRemoteData 0 h) w in
   deliveries_at 0 w' =
     deliveries_at 0 w ++
     handed_to (DataHandler h) (messages_of Data (inbound 0 w)) /\
   inbound 0 w' = messages_not_of Data (inbound 0 w) /\
   futures w' = futures w).
Proof.
  cbv zeta.
  destruct (QueueFacts.reached_waits class es) as (o & Hobs & (Ho & _) & Hq).
  set (w := occur_all 0 es (fresh class)) in *.
  destruct (Waits.observe_inv 0 w o Hobs) as (Hfields & Hhanded & Hheap).
  assert (Hin : inbound 0 w = _pendingInboundMessages (Router.fields o))
    by (unfold inbound; rewrite Hfields; reflexivity).
  split.
  - pose proof (RouterFacts.occur_refines 0 (SetOnRemoteCandidate h) w o Hobs Ho)
      as Hobs'.
    cbn [occur Router.step] in Hobs'. unfold Router.replay in Hobs'.
    cbn [Router.fields Router.handed Router.heap with_remoteCandidateHandler
         _pendingInboundMessages] in Hobs'.
    rewrite (RegistrationFacts.route_all_one_consumer Candidate (CandidateHandler h))
      in Hobs'.
    + destruct (Waits.observe_inv 0 _ _ Hobs') as (Hfields' & Hhanded' & Hheap').
      cbn [Router.fields Router.handed Router.heap] in *.
      match goal with |- _ /\ inbound 0 ?w' = _ /\ _ =>
        assert (Hin' : inbound 0 w' = messages_not_of Candidate (_pendingInboundMessages (Router.fields o)))
          by (unfold inbound; rewrite Hfields'; reflexivity) end.
      rewrite Hin', Hhanded', Hheap', Hin, Hhanded, Hheap.
      repeat split.
    + left. reflexivity.
    + reflexivity.
    + eapply Forall_impl; [exact Hq|].
      intros m (k & v & H1 & H2 & H3). exists k, v.
      split; [exact H1|]. split; [exact H2|].
      destruct k; [right; exact H3|left; reflexivity|right; exact H3..].
  - pose proof (RouterFacts.occur_refines 0 (SetOnRemoteData h) w o Hobs Ho)
      as Hobs'.
    cbn [occur Router.step] in Hobs'. unfold Router.replay in Hobs'.
    cbn [Router.fields Router.handed Router.heap with_remoteDataHandler
         _pendingInboundMessages] in Hobs'.
    rewrite (RegistrationFacts.route_all_one_consumer Data (DataHandler h))
      in Hobs'.
    + destruct (Waits.observe_inv 0 _ _ Hobs') as (Hfields' & Hhanded' & Hheap').
      cbn [Router.fields Router.handed Router.heap] in *.
      match goal with |- _ /\ inbound 0 ?w' = _ /\ _ =>
        assert (Hin' : inbound 0 w' = messages_not_of Data (_pendingInboundMessages (Router.fields o)))
          by (unfold inbound; rewrite Hfields'; reflexivity) end.
      rewrite Hin', Hhanded', Hheap', Hin, Hhanded, Hheap.
      repeat split.
    + right. reflexivity.
    + reflexivity.
    + eapply Forall_impl; [exact Hq|].
      intros m (k & v & H1 & H2 & H3). exists k, v.
      split; [exact H1|]. split; [exact H2|].
      destruct k; [right; exact H3..|left; reflexivity|right; exact H3].
Qed.

(** X6. Let the handlers return at once, leaving the store as it is and
    calling nothing.  Then in every store that incoming messages and
    registrations lead to, setting [onRemoteCandidate] calls the new handler
    with the payload of each retained candidate envelope, in queue order, and
    with nothing else; the other retained messages stay in the queue in their
    order, and no future is touched.  The same holds of [onRemoteData] and the
    retained data envelopes.  (A handler that throws or that calls back into
    the object is not covered.) *)
Theorem registration_delivers_retained
    (H : Host) (class : transport) (es : list event) (h : handler) :
  returns_quietly H ->
  let w := occur_all 0 es (fresh class) in
  (let w' := exec (set_onRemoteCandidate 0 h) w in
   deliveries_at 0 w' =
     deliveries_at 0 w ++
     handed_to (CandidateHandler h) (messages_of Candidate (inbound 0 w)) /\
   inbound 0 w' = messages_not_of Candidate (inbound 0 w) /\
   futures w' = futures w) /\
  (let w' := exec (set_onRemoteData 0 h) w in
   deliveries_at 0 w' =
     deliveries_at 0 w ++
     handed_to (DataHandler h) (messages_of Data (inbound 0 w)) /\
   inbound 0 w' = messages_not_of Data (inbound 0 w) /\
   futures w' = futures w).
Proof.
  intros Hquiet. cbv zeta. rewrite (HostFacts.occur_all_quiet H Hquiet).
  unfold exec.
  rewrite (HostFacts.set_onRemoteCandidate_quiet H Hquiet).
  rewrite (HostFacts.set_onRemoteData_quiet H Hquiet).
  exact (quiet_registration_delivers_retained class es h).
Qed.

Lemma registration_delivers_retained_witness :
  let w := occur_all 0 [Receive (envelope "candidate" (VNum 1));
                        Receive (envelope "data" (VNum 2));
                        Receive (envelope "candidate" (VNum 3))]
                     (fresh Abstract) in
  let w' := exec (set_onRemoteCandidate 0 7) w in
  deliveries_at 0 w' =
    [(CandidateHandler 7, VNum 1); (CandidateHandler 7, VNum 3)] /\
  inbound 0 w' = [envelope "data" (VNum 2)] /\
  futures w' = futures w.
Proof.
  exact (proj1 (registration_delivers_retained quiet Abstract
                  [Receive (envelope "candidate" (VNum 1));
                   Receive (envelope "data" (VNum 2));
                   Receive (envelope "candidate" (VNum 3))]
                  7 (fun _ _ _ => eq_refl))).
Defined.

(** ** What receiveRemoteDescription returns *)

(** X1. In every store that incoming messages and registrations lead to,
    [receiveRemoteDescription] returns [null] when a description is retained
    in the queue, and otherwise returns a future that is pending and that the
    field [_remoteDescriptionFuture] holds: it never returns a future that is
    already fulfilled. *)
Theorem receiveRemoteDescription_returns (class : transport) (es : list event) :
  let w := occur_all 0 es (fresh class) in
  let w' := exec (receiveRemoteDescription 0) w in
  (of_kind Description (retained 0 w) <> [] ->
   eval (receiveRemoteDescription 0) w = Ok None) /\
  (of_kind Description (retained 0 w) = [] ->
   exists f s',
     eval (receiveRemoteDescription 0) w = Ok (Some f) /\
     awaited (Some f) w' = None /\
     signalings w' !! 0 = Some s' /\ _remoteDescriptionFuture s' = Some f).
Proof.
  cbv zeta.
  destruct (Waits.reached class es) as (o & Hobs & Ho).
  set (w := occur_all 0 es (fresh class)) in *.
  destruct (RouterFacts.receiveRemoteDescription_refines 0 w o Hobs (proj1 Ho))
    as (w' & Hrun & Hobs').
  destruct (Waits.observed_envelopes 0 w o Hobs) as [_ Hret].
  destruct (Waits.ask_descriptions o) as (_ & _ & Hs).
  cbv zeta in Hs. cbn [Router.step] in Hs.
  unfold eval, exec. rewrite Hrun, Hret. cbn [fst snd]. rewrite Hs. split.
  - intros Hne.
    destruct (of_kind Description (Router.retained_envelopes o));
      [contradiction|reflexivity].
  - intros Hnil. rewrite Hnil in *. rewrite Waits.open_wait_slot in *.
    destruct (Waits.step_steady ReceiveRemoteDescription o Ho) as (_ & _ & Hwait).
    cbn [Router.step] in Hwait.
    destruct (Hwait _ Hs) as (_ & p & Hp & Hst).
    destruct (Waits.observe_inv 0 w' _ Hobs') as (Hfields' & _ & Hheap').
    eexists _, _. split; [reflexivity|]. split.
    + unfold awaited. rewrite Hheap', Hp, Hst. reflexivity.
    + split; [exact Hfields'|exact Hs].
Qed.

Lemma receiveRemoteDescription_returns_witness :
  eval (receiveRemoteDescription 0)
       (occur_all 0 [Receive (envelope "description" (VStr "offer"))]
                  (fresh Abstract)) = Ok None /\
  exists f s',
    eval (receiveRemoteDescription 0)
         (occur_all 0 [Receive (envelope "candidate" (VNum 1))] (fresh Abstract)) =
      Ok (Some f) /\
    awaited (Some f)
      (exec (receiveRemoteDescription 0)
            (occur_all 0 [Receive (envelope "candidate" (VNum 1))] (fresh Abstract))) =
      None /\
    signalings
      (exec (receiveRemoteDescription 0)
            (occur_all 0 [Receive (envelope "candidate" (VNum 1))] (fresh Abstract)))
      !! 0 = Some s' /\
    _remoteDescriptionFuture s' = Some f.
Proof.
  split.
  - apply (receiveRemoteDescription_returns Abstract
             [Receive (envelope "description" (VStr "offer"))]).
    discriminate.
  - apply (receiveRemoteDescription_returns Abstract
             [Receive (envelope "candidate" (VNum 1))]).
    reflexivity.
Defined.

(** ** The remote-done future *)

(** X3. After any sequence of incoming messages and registrations on a new
    signalling object, the remote-done future is pending if no [done]
    envelope has arrived, and otherwise is fulfilled with the payload of the
    first [done] envelope that arrived; later [done] envelopes do not change
    it, and no other message touches it. *)
Theorem remote_done_holds_first_done
    (class : transport) (es : list event) (s : Signaling) :
  let w := occur_all 0 es (fresh class) in
  signalings w !! 0 = Some s ->
  awaited (Some (_remoteDoneFuture s)) w =
    match of_kind Done (arrivals es) with
    | [] => None
    | v :: _ => Some (Future.Fulfilled v)
    end.
Proof.
  cbv zeta. intros Hs.
  pose proof (Accounting.observe_fresh class) as Hobs0.
  match type of Hobs0 with _ = Some ?o => set (o0 := o) in * end.
  assert (Hsound0 : Router.sound o0) by (apply Accounting.sound_fresh; reflexivity).
  assert (Hsteady0 : Router.steady o0).
  { split; [exact Hsound0|]. split; [intros k _; reflexivity|intros f [=]]. }
  destruct (RouterFacts.occur_all_refines 0 es _ o0 Hobs0 Hsound0) as [Hobs _].
  destruct (Waits.observe_inv 0 _ _ Hobs) as (Hfields & _ & Hheap).
  rewrite Hs in Hfields. injection Hfields as Hfields.
  destruct (Accounting.steps_ledger es o0 Done) as [Hledger Hdrained].
  { intros k _. reflexivity. }
  assert (Hrec : done_recorded (fold_left (fun o e => Router.step e o) es o0)).
  { apply DoneFutureFacts.steps_done_recorded; [exact Hsteady0|].
    exists Future.new. split; reflexivity. }
  destruct Hrec as (p & Hp & Hst).
  unfold Router.ledger in Hledger.
  rewrite (Hdrained Done) in Hledger by discriminate.
  rewrite app_nil_r in Hledger. cbn [app] in Hledger.
  unfold awaited. rewrite Hheap, Hfields, Hp, Hst, Hledger.
  destruct (of_kind Done (arrivals es)); reflexivity.
Qed.

Lemma remote_done_holds_first_done_witness :
  awaited (Some 0)
    (occur_all 0 [Receive (envelope "done" (VResult 1 (Some "X")));
                  Receive (envelope "done" (VResult 0 None))]
               (fresh Abstract)) =
  Some (Future.Fulfilled (VResult 1 (Some "X"))).
Proof.
  exact (remote_done_holds_first_done Abstract
           [Receive (envelope "done" (VResult 1 (Some "X")));
            Receive (envelope "done" (VResult 0 None))]
           _ eq_refl).
Defined.

(** ** A future that nobody settles *)

(** X10. As long as neither [resolve] nor [reject] is called on a future, it
    stays pending, no awaiter is resumed, and the awaiters are kept in the
    order they came: an await on a future that is never settled never
    completes. *)
Theorem unsettled_future_resumes_nobody (ops : list Future.op) :
  Future.first_settlement ops = None ->
  Future.run ops Future.new =
    ({| Future.st := Future.Pending; Future.reactions := Future.awaiters ops |}, []).
Proof.
  intros Hnone. rewrite FutureFacts.run_pending by reflexivity.
  rewrite Hnone. reflexivity.
Qed.

Lemma unsettled_future_resumes_nobody_witness :
  Future.run [Future.Await 3; Future.Await 1] Future.new =
    ({| Future.st := Future.Pending; Future.reactions := [3; 1] |}, []).
Proof.
  exact (unsettled_future_resumes_nobody [Future.Await 3; Future.Await 1] eq_refl).
Defined.

(** ** The open handler on a socket that is not open *)

(** X9. The open handler iterates over the live cache while [_sendMessage]
    appends to that cache when the socket is not open.  So if the handler
    runs on a socket that is not open and the cache is not empty, every step
    adds the message it has just read to the end of the cache, and the loop
    does not end, whatever the fuel; with an empty cache it returns at once. *)
Theorem onopen_needs_open_socket (this : sid) (w : World) (rs : Z) :
  ready_state this w = Some rs -> rs <> OPEN ->
  (outbound this w = [] -> forall fuel, onopen (S fuel) this w = (Ok tt, w)) /\
  (outbound this w <> [] -> forall fuel, eval (onopen fuel this) w = OutOfFuel).
Proof.
  intros Hrs Hne. split.
  - intros Hempty fuel.
    destruct (RelayFacts.ready_state_inv this w rs Hrs)
      as (s & pending & ws & Hs & Hk & _ & Hout & _).
    unfold onopen. cbn [onopen_from]. unfold bind, load. rewrite Hs, Hk.
    rewrite <- Hout, Hempty. reflexivity.
  - intros Hcache fuel. unfold onopen.
    assert (Hi : 0 < length (outbound this w))
      by (destruct (outbound this w); [contradiction|simpl; lia]).
    clear Hcache. revert Hi. generalize 0 as i. revert w Hrs.
    induction fuel as [|fuel IH]; intros w Hrs i Hi; [reflexivity|].
    destruct (RelayFacts.ready_state_inv this w rs Hrs)
      as (s & pending & ws & Hs & Hk & _ & Hout & _).
    cbn [onopen_from]. unfold eval, bind at 1, load at 1. rewrite Hs, Hk.
    rewrite Hout in Hi.
    destruct (lookup_lt_is_Some_2 pending i Hi) as [m Hm]. rewrite Hm.
    destruct (RelayFacts.send_not_open this m w rs Hrs Hne)
      as (w1 & Hrun & Hrs1 & Hout1 & _).
    unfold bind. rewrite Hrun.
    specialize (IH w1 Hrs1 (S i)). unfold eval in IH.
    destruct (onopen_from fuel (S i) this w1) as [r w2] eqn:Hloop.
    cbn [fst] in *. rewrite IH; [reflexivity|].
    rewrite Hout1, Hout, length_app. simpl. lia.
Qed.

Lemma onopen_needs_open_socket_witness :
  eval (onopen 7 0)
       (exec (sendData 0 (VNum 1)) (exec new_WebSocketSignaling empty_world)) =
  OutOfFuel.
Proof.
  apply (onopen_needs_open_socket 0
           (exec (sendData 0 (VNum 1)) (exec new_WebSocketSignaling empty_world))
           CONNECTING eq_refl ltac:(discriminate)).
  discriminate.
Defined.

(** ** done on the two transports *)

Module DoneTransportFacts.

Lemma done_sent_inv (this : sid) (w : World) (b : bool) :
  done_sent this w = Some b ->
  exists s, signalings w !! this = Some s /\ _doneSent s = b.
Proof.
  unfold done_sent. destruct (signalings w !! this) as [s|]; [|discriminate].
  intros [= <-]. exists s. split; reflexivity.
Qed.

Lemma after_store (this : sid) (w : World) (s s' : Signaling) :
  signalings w !! this = Some s ->
  signalings (exec (store this s') w) !! this = Some s' /\
  futures (exec (store this s') w) = futures w /\
  deliveries (exec (store this s') w) = deliveries w.
Proof.
  intros Hs. unfold exec, store. cbn [snd signalings futures deliveries].
  rewrite list_lookup_insert_eq by exact (lookup_lt_Some _ _ _ Hs).
  repeat split.
Qed.

(** A send on a relay object changes the fields of the subclass only. *)
Lemma relay_send_shape (this : sid) (m : message) (w : World) (s : Signaling)
      (pending : list message) (ws : WebSocket) :
  signalings w !! this = Some s -> klass s = Relay pending ws ->
  exists k, _sendMessage this m w = (Ok tt, exec (store this (with_klass k s)) w).
Proof.
  intros Hs Hk. unfold _sendMessage, bind, load. rewrite Hs, Hk.
  destruct (negb (readyState ws =? 1)%Z); eexists; reflexivity.
Qed.

Lemma relay_send_keeps (this : sid) (m : message) (w : World) (rs : Z) :
  ready_state this w = Some rs ->
  done_sent this (exec (_sendMessage this m) w) = done_sent this w /\
  remote_done this (exec (_sendMessage this m) w) = remote_done this w.
Proof.
  intros Hrs.
  destruct (RelayFacts.ready_state_inv this w rs Hrs)
    as (s & pending & ws & Hs & Hk & _).
  destruct (relay_send_shape this m w s pending ws Hs Hk) as (k & Hrun).
  unfold exec at 1 2. rewrite Hrun. cbn [snd].
  destruct (after_store this w s (with_klass k s) Hs) as (Hs' & _).
  unfold done_sent, remote_done. rewrite Hs', Hs. split; reflexivity.
Qed.

Lemma set_readyState_keeps (this : sid) (w : World) (rs : Z) :
  done_sent this (exec (set_readyState this rs) w) = done_sent this w /\
  remote_done this (exec (set_readyState this rs) w) = remote_done this w.
Proof.
  unfold set_readyState, exec, bind, load.
  destruct (signalings w !! this) as [s|] eqn:Hs; [|split; reflexivity].
  destruct (klass s) eqn:Hk; try (split; reflexivity).
  unfold done_sent, remote_done, store. cbn [snd signalings].
  rewrite list_lookup_insert_eq by exact (lookup_lt_Some _ _ _ Hs).
  rewrite Hs. split; reflexivity.
Qed.

Lemma onopen_keeps (fuel i : nat) (this : sid) (w : World) :
  ready_state this w = Some OPEN ->
  done_sent this (exec (onopen_from fuel i this) w) = done_sent this w /\
  remote_done this (exec (onopen_from fuel i this) w) = remote_done this w.
Proof.
  revert i w. induction fuel as [|fuel IH]; intros i w Hrs; [split; reflexivity|].
  destruct (RelayFacts.ready_state_inv this w _ Hrs)
    as (s & pending & ws & Hs & Hk & _).
  assert (Hstep : onopen_from (S fuel) i this w =
                    match pending !! i with
                    | Some m => (_sendMessage this m ;;; onopen_from fuel (S i) this) w
                    | None => (Ok tt, w)
                    end).
  { cbn [onopen_from]. unfold bind at 1, load. rewrite Hs, Hk.
    destruct (pending !! i); reflexivity. }
  unfold exec. rewrite Hstep.
  destruct (pending !! i) as [m|]; [|split; reflexivity].
  destruct (RelayFacts.send_open this m w Hrs) as (w1 & Hrun & Hrs1 & _).
  destruct (relay_send_keeps this m w OPEN Hrs) as [Hd Hr].
  unfold exec in Hd, Hr. rewrite Hrun in Hd, Hr. cbn [snd] in Hd, Hr.
  unfold bind. rewrite Hrun.
  destruct (IH (S i) w1 Hrs1) as [Hd1 Hr1]. unfold exec in Hd1, Hr1.
  rewrite Hd1, Hr1, Hd, Hr. split; reflexivity.
Qed.

Lemma ws_open_keeps (fuel : nat) (this : sid) (w : World) (rs : Z) :
  ready_state this w = Some rs ->
  done_sent this (exec (ws_open fuel this) w) = done_sent this w /\
  remote_done this (exec (ws_open fuel this) w) = remote_done this w.
Proof.
  intros Hrs.
  destruct (RelayFacts.set_readyState_relay this w rs OPEN Hrs)
    as (w1 & Hrun1 & Hrs1 & _).
  destruct (set_readyState_keeps this w OPEN) as [Hd Hr].
  unfold exec in Hd, Hr. rewrite Hrun1 in Hd, Hr. cbn [snd] in Hd, Hr.
  destruct (onopen_keeps fuel 0 this w1 Hrs1) as [Hd1 Hr1].
  unfold ws_open, exec, bind. rewrite Hrun1.
  unfold exec, onopen in *. rewrite Hd1, Hr1, Hd, Hr. split; reflexivity.
Qed.

(** The first [_done] on a relay object whose socket is not open. *)
Lemma done_cached (this : sid) (r : value) (w : World) (s : Signaling)
      (pending : list message) (ws : WebSocket) :
  signalings w !! this = Some s -> _doneSent s = false ->
  klass s = Relay pending ws -> readyState ws <> OPEN ->
  exists w', _done this r w = (Ok (_remoteDoneFuture s), w') /\
             ready_state this w' = Some (readyState ws) /\
             outbound this w' = pending ++ [envelope "done" r] /\
             wire this w' = sent ws /\
             done_sent this w' = Some true /\
             remote_done this w' = Some (_remoteDoneFuture s).
Proof.
  intros Hs Hsent Hk Hclosed. pose proof (lookup_lt_Some _ _ _ Hs) as Hlt.
  set (s1 := with_klass (Relay (pending ++ [envelope "done" r]) ws) s).
  assert (Hsend : _sendMessage this (envelope "done" r) w =
                    (Ok tt, exec (store this s1) w)).
  { unfold _sendMessage, bind, load. rewrite Hs, Hk.
    assert (Hb : (readyState ws =? 1)%Z = false) by (apply Z.eqb_neq; exact Hclosed).
    rewrite Hb. reflexivity. }
  destruct (after_store this w s s1 Hs) as (Hs1 & _).
  eexists. split.
  - rewrite (DoneFacts.done_first this r w _ s s1 Hs Hsent Hsend Hs1). reflexivity.
  - unfold ready_state, outbound, wire, done_sent, remote_done, exec, store.
    cbn [snd signalings]. rewrite list_insert_insert_eq.
    rewrite list_lookup_insert_eq by exact Hlt. repeat split.
Qed.

End DoneTransportFacts.

(** X13. On a relay object whose socket is not open, the first [_done] puts
    its envelope in the cache behind what is cached already, and nothing on
    the wire; when the socket opens, the cache goes on the wire in order, the
    [done] envelope last; and calls of [_done] after that put nothing more on
    the wire and change nothing. *)
Theorem done_before_open_is_sent_at_open
    (this : sid) (w : World) (s : Signaling) (pending : list message)
    (ws : WebSocket) (first : value) (later : list value) (fuel : nat) :
  signalings w !! this = Some s -> _doneSent s = false ->
  klass s = Relay pending ws -> readyState ws <> OPEN ->
  S (length pending) < fuel ->
  let w1 := exec (_done this first) w in
  let w2 := exec (ws_open fuel this) w1 in
  let w3 := exec (call_each (_done this) later) w2 in
  wire this w1 = sent ws /\
  wire this w2 = sent ws ++ pending ++ [envelope "done" first] /\
  eval (call_each (_done this) later) w2 =
    Ok (repeat (_remoteDoneFuture s) (length later)) /\
  w3 = w2.
Proof.
  intros Hs Hsent Hk Hclosed Hfuel. cbv zeta.
  destruct (DoneTransportFacts.done_cached this first w s pending ws
              Hs Hsent Hk Hclosed)
    as (w1 & Hrun1 & Hrs1 & Hout1 & Hwire1 & Hd1 & Hr1).
  unfold exec, eval. rewrite Hrun1. cbn [snd].
  destruct (RelayFacts.ws_open_flushes fuel this w1 _ Hrs1)
    as (w2 & Hrun2 & Hrs2 & Hout2 & Hwire2).
  { rewrite Hout1, length_app. simpl. lia. }
  destruct (DoneTransportFacts.ws_open_keeps fuel this w1 _ Hrs1) as [Hd2 Hr2].
  unfold exec in Hd2, Hr2. rewrite Hrun2 in *. cbn [snd] in *.
  rewrite Hd1 in Hd2. rewrite Hr1 in Hr2.
  destruct (DoneTransportFacts.done_sent_inv this w2 true Hd2) as (s2 & Hs2 & Hsent2).
  unfold remote_done in Hr2. rewrite Hs2 in Hr2. injection Hr2 as Hr2.
  rewrite (DoneFacts.done_repeated this later w2 s2 Hs2 Hsent2).
  cbn [fst snd]. rewrite Hr2, Hwire2, Hwire1, Hout1.
  repeat split.
Qed.

Lemma done_before_open_is_sent_at_open_witness :
  let w := exec (sendData 0 (VNum 7)) (exec new_WebSocketSignaling empty_world) in
  let w1 := exec (_done 0 (VResult 0 None)) w in
  let w2 := exec (ws_open 3 0) w1 in
  wire 0 w1 = [] /\
  wire 0 w2 = [envelope "data" (VNum 7); envelope "done" (VResult 0 None)] /\
  exec (call_each (_done 0) [VResult 1 None; VResult 2 None]) w2 = w2.
Proof.
  intros w w1 w2.
  destruct (done_before_open_is_sent_at_open 0 w
              {| _pendingInboundMessages := [];
                 _remoteDescriptionFuture := None;
                 _remoteCandidateHandler := None;
                 _remoteDataHandler := None;
                 _doneSent := false;
                 _remoteDoneFuture := 0;
                 klass := Relay [envelope "data" (VNum 7)]
                            {| readyState := CONNECTING; sent := [] |} |}
              [envelope "data" (VNum 7)]
              {| readyState := CONNECTING; sent := [] |}
              (VResult 0 None) [VResult 1 None; VResult 2 None] 3
              eq_refl eq_refl eq_refl ltac:(discriminate) ltac:(simpl; lia))
    as (H1 & H2 & _ & H3).
  exact (conj H1 (conj H2 H3)).
Defined.

Module DoneExchangeFacts.

(** A [done] envelope at a signalling object resolves its remote-done future
    and leaves every signalling object as it was. *)
Lemma receive_done_heap (other : sid) (v : value) (w : World)
      (peer : Signaling) (p : Future.t) :
  signalings w !! other = Some peer ->
  futures w !! _remoteDoneFuture peer = Some p ->
  exists w', _receiveMessage other (envelope "done" v) w = (Ok tt, w') /\
             signalings w' = signalings w /\
             futures w' = <[_remoteDoneFuture peer := (Future.resolve v p).1]> (futures w) /\
             deliveries w' = deliveries w ++
               [{| d_at := other; d_to := DoneWait (_remoteDoneFuture peer);
                   d_payload := v |}].
Proof.
  intros Hpeer Hp.
  unfold _receiveMessage. cbn [envelope msg_type default_value msg_value].
  rewrite decide_False by discriminate. rewrite decide_False by discriminate.
  rewrite decide_False by discriminate. rewrite decide_True by reflexivity.
  unfold _handleDone, bind, load. rewrite Hpeer.
  unfold deliver, bind, trace, future_resolve, on_future.
  change (value_of (envelope "done" v)) with v. cbn [futures]. rewrite Hp.
  destruct (Future.resolve v p) as [p' jobs] eqn:Hres.
  eexists. split; [reflexivity|]. repeat split.
Qed.

Lemma resolve_pending (v : value) (p : Future.t) :
  Future.st p = Future.Pending ->
  Future.st (Future.resolve v p).1 = Future.Settled (Future.Fulfilled v).
Proof. intros Hst. unfold Future.resolve, Future.settle. rewrite Hst. reflexivity. Qed.

(** [_done] on a loopback object with its peer set, the first time. *)
Lemma done_to_peer (this other : sid) (r : value) (w : World)
      (s peer : Signaling) (p : Future.t) :
  signalings w !! this = Some s -> _doneSent s = false ->
  klass s = Loopback (Some other) ->
  signalings w !! other = Some peer ->
  futures w !! _remoteDoneFuture peer = Some p ->
  exists w', _done this r w = (Ok (_remoteDoneFuture s), w') /\
             signalings w' = <[this := with_doneSent true s]> (signalings w) /\
             futures w' = <[_remoteDoneFuture peer := (Future.resolve r p).1]> (futures w) /\
             deliveries w' = deliveries w ++
               [{| d_at := other; d_to := DoneWait (_remoteDoneFuture peer);
                   d_payload := r |}].
Proof.
  intros Hs Hsent Hk Hpeer Hp.
  destruct (receive_done_heap other r w peer p Hpeer Hp)
    as (w1 & Hrun & Hsig & Hfut & Hdel).
  assert (Hsend : _sendMessage this (envelope "done" r) w = (Ok tt, w1)).
  { unfold _sendMessage, bind, load. rewrite Hs, Hk. exact Hrun. }
  assert (Hs1 : signalings w1 !! this = Some s) by (rewrite Hsig; exact Hs).
  eexists. split.
  - exact (DoneFacts.done_first this r w w1 s s Hs Hsent Hsend Hs1).
  - unfold exec, store. cbn [snd signalings futures deliveries].
    rewrite Hsig, Hfut, Hdel. repeat split.
Qed.

(** Two objects that are each other's peer send their [done]: each one's
    remote-done future is fulfilled with what the other sent. *)
Lemma done_pair (a b : sid) (w : World) (sa sb : Signaling) (pa pb : Future.t)
      (ra rb : value) :
  a <> b ->
  signalings w !! a = Some sa -> signalings w !! b = Some sb ->
  klass sa = Loopback (Some b) -> klass sb = Loopback (Some a) ->
  _doneSent sa = false -> _doneSent sb = false ->
  _remoteDoneFuture sa <> _remoteDoneFuture sb ->
  futures w !! _remoteDoneFuture sa = Some pa -> Future.st pa = Future.Pending ->
  futures w !! _remoteDoneFuture sb = Some pb -> Future.st pb = Future.Pending ->
  let w' := exec (_done a ra ;;; _done b rb) w in
  awaited (Some (_remoteDoneFuture sa)) w' = Some (Future.Fulfilled rb) /\
  awaited (Some (_remoteDoneFuture sb)) w' = Some (Future.Fulfilled ra).
Proof.
  intros Hab Hsa Hsb Hka Hkb Hna Hnb Hf Hpa Hsta Hpb Hstb. cbv zeta.
  destruct (done_to_peer a b ra w sa sb pb Hsa Hna Hka Hsb Hpb)
    as (w1 & Hrun1 & Hsig1 & Hfut1 & _).
  assert (Hsb1 : signalings w1 !! b = Some sb).
  { rewrite Hsig1, list_lookup_insert_ne by exact Hab. exact Hsb. }
  assert (Hsa1 : signalings w1 !! a = Some (with_doneSent true sa)).
  { rewrite Hsig1. apply list_lookup_insert_eq. exact (lookup_lt_Some _ _ _ Hsa). }
  assert (Hpa1 : futures w1 !! _remoteDoneFuture (with_doneSent true sa) = Some pa).
  { rewrite Hfut1. cbn [with_doneSent _remoteDoneFuture].
    rewrite list_lookup_insert_ne by congruence. exact Hpa. }
  destruct (done_to_peer b a rb w1 sb (with_doneSent true sa) pa
              Hsb1 Hnb Hkb Hsa1 Hpa1) as (w2 & Hrun2 & _ & Hfut2 & _).
  unfold exec, bind. rewrite Hrun1, Hrun2. cbn [snd].
  cbn [with_doneSent _remoteDoneFuture] in Hfut2.
  unfold awaited. rewrite Hfut2, Hfut1. split.
  - rewrite list_lookup_insert_eq.
    + rewrite (resolve_pending rb pa Hsta). reflexivity.
    + rewrite length_insert. exact (lookup_lt_Some _ _ _ Hpa).
  - rewrite list_lookup_insert_ne by exact Hf.
    rewrite list_lookup_insert_eq by exact (lookup_lt_Some _ _ _ Hpb).
    rewrite (resolve_pending ra pb Hstb). reflexivity.
Qed.

End DoneExchangeFacts.

(** X4. Two loopback objects that are each other's peer, neither of which
    has sent [done], with distinct pending remote-done futures: when both call
    [_done], each one's remote-done future is fulfilled with the value the
    other one passed, whichever of the two calls first. *)
Theorem done_exchange_is_order_independent
    (a b : sid) (w : World) (sa sb : Signaling) (pa pb : Future.t)
    (ra rb : value) :
  a <> b ->
  signalings w !! a = Some sa -> signalings w !! b = Some sb ->
  klass sa = Loopback (Some b) -> klass sb = Loopback (Some a) ->
  _doneSent sa = false -> _doneSent sb = false ->
  _remoteDoneFuture sa <> _remoteDoneFuture sb ->
  futures w !! _remoteDoneFuture sa = Some pa -> Future.st pa = Future.Pending ->
  futures w !! _remoteDoneFuture sb = Some pb -> Future.st pb = Future.Pending ->
  let a_first := exec (_done a ra ;;; _done b rb) w in
  let b_first := exec (_done b rb ;;; _done a ra) w in
  awaited (Some (_remoteDoneFuture sa)) a_first = Some (Future.Fulfilled rb) /\
  awaited (Some (_remoteDoneFuture sb)) a_first = Some (Future.Fulfilled ra) /\
  awaited (Some (_remoteDoneFuture sa)) b_first = Some (Future.Fulfilled rb) /\
  awaited (Some (_remoteDoneFuture sb)) b_first = Some (Future.Fulfilled ra).
Proof.
  intros Hab Hsa Hsb Hka Hkb Hna Hnb Hf Hpa Hsta Hpb Hstb. cbv zeta.
  destruct (DoneExchangeFacts.done_pair a b w sa sb pa pb ra rb
              Hab Hsa Hsb Hka Hkb Hna Hnb Hf Hpa Hsta Hpb Hstb) as [H1 H2].
  destruct (DoneExchangeFacts.done_pair b a w sb sa pb pa rb ra
              (not_eq_sym Hab) Hsb Hsa Hkb Hka Hnb Hna (not_eq_sym Hf)
              Hpb Hstb Hpa Hsta) as [H3 H4].
  repeat split; assumption.
Qed.

Lemma done_exchange_is_order_independent_witness :
  let w := exec loopback_pair empty_world in
  let a_first := exec (_done 0 (VResult 0 None) ;;; _done 1 (VResult 1 (Some "X"))) w in
  let b_first := exec (_done 1 (VResult 1 (Some "X")) ;;; _done 0 (VResult 0 None)) w in
  awaited (Some 0) a_first = Some (Future.Fulfilled (VResult 1 (Some "X"))) /\
  awaited (Some 1) a_first = Some (Future.Fulfilled (VResult 0 None)) /\
  awaited (Some 0) b_first = Some (Future.Fulfilled (VResult 1 (Some "X"))) /\
  awaited (Some 1) b_first = Some (Future.Fulfilled (VResult 0 None)).
Proof.
  exact (done_exchange_is_order_independent 0 1 (exec loopback_pair empty_world)
           {| _pendingInboundMessages := [];
              _remoteDescriptionFuture := None;
              _remoteCandidateHandler := None;
              _remoteDataHandler := None;
              _doneSent := false;
              _remoteDoneFuture := 0;
              klass := Loopback (Some 1) |}
           {| _pendingInboundMessages := [];
              _remoteDescriptionFuture := None;
              _remoteCandidateHandler := None;
              _remoteDataHandler := None;
              _doneSent := false;
              _remoteDoneFuture := 1;
              klass := Loopback (Some 0) |}
           Future.new Future.new (VResult 0 None) (VResult 1 (Some "X"))
           ltac:(discriminate) eq_refl eq_refl eq_refl eq_refl eq_refl eq_refl
           ltac:(discriminate) eq_refl eq_refl eq_refl eq_refl).
Defined.

(** X5. An object that cannot send leaves no trace when asked to: on an
    object of the base class, [_sendMessage] and [_done] raise the
    unreachable assertion, and on a loopback object without a peer they raise
    a type error; in each case the store is left exactly as it was, so
    [_doneSent] is still false.  Once the loopback object gets its peer, the
    next [_done] does send its envelope to the peer. *)
Theorem failed_send_changes_nothing
    (this peer : sid) (w : World) (s sp : Signaling) (m : message) (r r' : value) :
  signalings w !! this = Some s -> _doneSent s = false ->
  (klass s = Abstract ->
   exists e, _sendMessage this m w = (Throw (AssertUnreached e), w) /\
             _done this r w = (Throw (AssertUnreached e), w)) /\
  (klass s = Loopback None ->
   (exists e, _sendMessage this m w = (Throw (TypeError e), w) /\
              _done this r w = (Throw (TypeError e), w)) /\
   (this <> peer -> signalings w !! peer = Some sp ->
    _remoteDoneFuture sp < length (futures w) ->
    let w1 := exec (set_other this peer) (exec (_done this r) w) in
    eval (_done this r') w1 = Ok (_remoteDoneFuture s) /\
    deliveries (exec (_done this r') w1) =
      deliveries w ++
      [{| d_at := peer; d_to := DoneWait (_remoteDoneFuture sp);
          d_payload := r' |}])).
Proof.
  intros Hs Hsent. split.
  - intros Hk. eexists. split.
    + unfold _sendMessage, bind, load. rewrite Hs, Hk. reflexivity.
    + unfold _done, bind, load, _sendMessage. rewrite Hs, Hsent. cbn [negb].
      unfold bind, load. rewrite Hs, Hk. reflexivity.
  - intros Hk.
    assert (Hfail : _done this r w = (Throw (TypeError "this.other is null"), w)).
    { unfold _done, bind, load, _sendMessage. rewrite Hs, Hsent. cbn [negb].
      unfold bind, load. rewrite Hs, Hk. reflexivity. }
    split.
    + eexists. split; [|exact Hfail].
      unfold _sendMessage, bind, load. rewrite Hs, Hk. reflexivity.
    + intros Hne Hpeer Hdone. cbv zeta. unfold exec, eval.
      rewrite Hfail. cbn [snd].
      set (s1 := with_klass (Loopback (Some peer)) s).
      assert (Hset : set_other this peer w = (Ok tt, (store this s1 w).2)).
      { unfold set_other, bind, load. rewrite Hs. reflexivity. }
      rewrite Hset. cbn [snd].
      destruct (DoneTransportFacts.after_store this w s s1 Hs) as (Hs1 & Hf1 & Hd1).
      unfold exec in Hs1, Hf1, Hd1.
      set (w1 := (store this s1 w).2) in *.
      assert (Hpeer1 : signalings w1 !! peer = Some sp).
      { unfold w1, store. cbn [snd signalings].
        rewrite list_lookup_insert_ne by exact Hne. exact Hpeer. }
      destruct (DoneFacts.receive_done peer r' w1 sp Hpeer1)
        as (w2 & Hrun & Hsig & Hdel & _); [rewrite Hf1; exact Hdone|].
      assert (Hsend : _sendMessage this (envelope "done" r') w1 = (Ok tt, w2)).
      { unfold _sendMessage, bind, load. rewrite Hs1. exact Hrun. }
      assert (Hs2 : signalings w2 !! this = Some s1) by (rewrite Hsig; exact Hs1).
      rewrite (DoneFacts.done_first this r' w1 w2 s1 s1 Hs1 Hsent Hsend Hs2).
      cbn [fst snd]. split; [reflexivity|].
      unfold exec, store. cbn [snd deliveries]. rewrite Hdel, Hd1. reflexivity.
Qed.

Lemma failed_send_changes_nothing_witness :
  let w := exec new_LoopbackSignaling (exec new_LoopbackSignaling empty_world) in
  exec (_done 0 (VNum 1)) w = w /\
  deliveries (exec (_done 0 (VNum 2))
                (exec (set_other 0 1) (exec (_done 0 (VNum 1)) w))) =
    [{| d_at := 1; d_to := DoneWait 1; d_payload := VNum 2 |}].
Proof.
  intros w.
  destruct (failed_send_changes_nothing 0 1 w
              {| _pendingInboundMessages := [];
                 _remoteDescriptionFuture := None;
                 _remoteCandidateHandler := None;
                 _remoteDataHandler := None;
                 _doneSent := false;
                 _remoteDoneFuture := 0;
                 klass := Loopback None |}
              {| _pendingInboundMessages := [];
                 _remoteDescriptionFuture := None;
                 _remoteCandidateHandler := None;
                 _remoteDataHandler := None;
                 _doneSent := false;
                 _remoteDoneFuture := 1;
                 klass := Loopback None |}
              (envelope "data" VNull) (VNum 1) (VNum 2) eq_refl eq_refl)
    as [_ Hloop].
  destruct (Hloop eq_refl) as [(e & _ & Hfail) Hretry].
  split.
  - unfold exec. rewrite Hfail. reflexivity.
  - apply (Hretry ltac:(discriminate) eq_refl ltac:(simpl; lia)).
Defined.

(** ** Candidates across a loopback pair *)

Module CandidateFacts.

(** A discovered candidate while the peer has no handler: the non-null ones
    join the peer's queue. *)
Lemma discovered_early (c : value) (ha : option handler) (q : list message)
      (ds : list delivery) :
  on_icecandidate 0 c
    (pair_store (candidate_peer 1 0 ha []) (candidate_peer 0 1 None q) ds) =
  (Ok tt,
   pair_store (candidate_peer 1 0 ha [])
     (candidate_peer 0 1 None
        (q ++ map (envelope "candidate") (List.filter truthy [c]))) ds).
Proof.
  unfold on_icecandidate. cbn [List.filter].
  destruct (truthy c); [reflexivity|].
  cbn [map]. rewrite app_nil_r. reflexivity.
Qed.

Lemma all_discovered_early (cs : list value) (ha : option handler)
      (q : list message) (ds : list delivery) :
  for_of cs (on_icecandidate 0)
    (pair_store (candidate_peer 1 0 ha []) (candidate_peer 0 1 None q) ds) =
  (Ok tt,
   pair_store (candidate_peer 1 0 ha [])
     (candidate_peer 0 1 None
        (q ++ map (envelope "candidate") (List.filter truthy cs))) ds).
Proof.
  revert q. induction cs as [|c cs IH]; intros q.
  - cbn. rewrite app_nil_r. reflexivity.
  - cbn [for_of]. unfold bind. rewrite discovered_early, IH.
    rewrite <- app_assoc, <- map_app.
    change (c :: cs) with ([c] ++ cs). rewrite List.filter_app. reflexivity.
Qed.

(** The replay of queued candidates once the handler is there. *)
Lemma replay_candidates (cs : list value) (ha : option handler) (hb : handler)
      (ds : list delivery) :
  for_of (map (envelope "candidate") cs) (_receiveMessage 1)
    (pair_store (candidate_peer 1 0 ha []) (candidate_peer 0 1 (Some hb) []) ds) =
  (Ok tt,
   pair_store (candidate_peer 1 0 ha []) (candidate_peer 0 1 (Some hb) [])
     (ds ++ handler_calls 1 hb cs)).
Proof.
  revert ds. induction cs as [|c cs IH]; intros ds.
  - cbn. rewrite app_nil_r. reflexivity.
  - cbn [map for_of]. unfold bind at 1.
    change (_receiveMessage 1 (envelope "candidate" c)
              (pair_store (candidate_peer 1 0 ha [])
                 (candidate_peer 0 1 (Some hb) []) ds))
      with (@Ok unit tt,
            pair_store (candidate_peer 1 0 ha []) (candidate_peer 0 1 (Some hb) [])
              (ds ++ handler_calls 1 hb [c])).
    cbn iota beta. rewrite IH. unfold handler_calls.
    rewrite <- app_assoc. reflexivity.
Qed.

(** A discovered candidate while the peer has its handler: the non-null ones
    are handed to it. *)
Lemma all_discovered_late (cs : list value) (ha : option handler) (hb : handler)
      (ds : list delivery) :
  for_of cs (on_icecandidate 0)
    (pair_store (candidate_peer 1 0 ha []) (candidate_peer 0 1 (Some hb) []) ds) =
  (Ok tt,
   pair_store (candidate_peer 1 0 ha []) (candidate_peer 0 1 (Some hb) [])
     (ds ++ handler_calls 1 hb (List.filter truthy cs))).
Proof.
  revert ds. induction cs as [|c cs IH]; intros ds.
  - cbn. rewrite app_nil_r. reflexivity.
  - cbn [for_of List.filter]. unfold bind at 1, on_icecandidate at 1.
    destruct (truthy c).
    + change (sendLocalCandidate 0 c
                (pair_store (candidate_peer 1 0 ha [])
                   (candidate_peer 0 1 (Some hb) []) ds))
        with (@Ok unit tt,
              pair_store (candidate_peer 1 0 ha []) (candidate_peer 0 1 (Some hb) [])
                (ds ++ handler_calls 1 hb [c])).
      cbn iota beta. rewrite IH. unfold handler_calls.
      rewrite <- app_assoc. reflexivity.
    + cbn. apply IH.
Qed.

End CandidateFacts.

(** X8. Two new loopback objects, each the other's peer.  The first calls
    [exchangeCandidates] and its connection discovers the candidates [early];
    then the second calls [exchangeCandidates]; then the first's connection
    discovers the candidates [late].  A null (falsy) candidate is never sent.
    The others are first retained at the second object, with nothing
    delivered; its [exchangeCandidates] hands them to its handler in the order
    of discovery and empties the queue; and those discovered later are handed
    over as they come.  So the handler gets every non-null candidate once, in
    the order of discovery. *)
Theorem candidates_cross_the_loopback (early late : list value) (pcA pcB : handler) :
  let w0 := exec loopback_pair empty_world in
  let w1 := exec (exchangeCandidates 0 pcA ;;; for_of early (on_icecandidate 0)) w0 in
  let w2 := exec (exchangeCandidates 1 pcB) w1 in
  let w3 := exec (for_of late (on_icecandidate 0)) w2 in
  (deliveries w1 = [] /\
   inbound 1 w1 = map (envelope "candidate") (List.filter truthy early)) /\
  (deliveries w2 = handler_calls 1 pcB (List.filter truthy early) /\
   inbound 1 w2 = []) /\
  deliveries w3 = handler_calls 1 pcB (List.filter truthy (early ++ late)).
Proof.
  cbv zeta. unfold exec.
  change (exec loopback_pair empty_world)
    with (pair_store (candidate_peer 1 0 None []) (candidate_peer 0 1 None []) []).
  assert (H1 :
    (exchangeCandidates 0 pcA ;;; for_of early (on_icecandidate 0))
      (loopback_pair empty_world).2 =
    (Ok tt,
     pair_store (candidate_peer 1 0 (Some pcA) [])
       (candidate_peer 0 1 None
          (map (envelope "candidate") (List.filter truthy early))) [])).
  { unfold bind.
    change (exchangeCandidates 0 pcA (loopback_pair empty_world).2)
      with (@Ok unit tt,
            pair_store (candidate_peer 1 0 (Some pcA) [])
              (candidate_peer 0 1 None []) []).
    cbn iota beta. apply CandidateFacts.all_discovered_early. }
  rewrite H1. cbn [snd].
  assert (H2 :
    exchangeCandidates 1 pcB
      (pair_store (candidate_peer 1 0 (Some pcA) [])
         (candidate_peer 0 1 None
            (map (envelope "candidate") (List.filter truthy early))) []) =
    (Ok tt,
     pair_store (candidate_peer 1 0 (Some pcA) []) (candidate_peer 0 1 (Some pcB) [])
       (handler_calls 1 pcB (List.filter truthy early)))).
  { unfold exchangeCandidates, set_onRemoteCandidate, bind at 1, load at 1.
    cbn [pair_store signalings lookup list_lookup]. unfold bind at 1.
    cbn [store fst snd]. unfold _processPendingInboundMessages, bind at 1, load at 1.
    cbn [signalings list_insert insert lookup list_lookup]. unfold bind at 1.
    cbn [store].
    apply (CandidateFacts.replay_candidates (List.filter truthy early) (Some pcA) pcB []). }
  rewrite H2. cbn [snd].
  rewrite CandidateFacts.all_discovered_late. cbn [snd].
  unfold inbound. cbn [pair_store signalings deliveries].
  rewrite List.filter_app. unfold handler_calls. rewrite map_app.
  repeat split.
Qed.

(** ** Test addresses *)

Module AddressFacts.

Lemma length_append (s t : string) :
  String.length (String.append s t) = String.length s + String.length t.
Proof. induction s as [|a s IH]; simpl; [reflexivity|]. rewrite IH. reflexivity. Qed.

(** Two strings with tails of one length are equal part by part. *)
Lemma append_inv (s1 s2 t1 t2 : string) :
  String.length t1 = String.length t2 ->
  String.append s1 t1 = String.append s2 t2 ->
  s1 = s2 /\ t1 = t2.
Proof.
  intros Hlen. revert s2.
  induction s1 as [|a s1 IH]; intros [|b s2] Heq; simpl in Heq.
  - split; [reflexivity|exact Heq].
  - apply (f_equal String.length) in Heq.
    rewrite !length_append in Heq. simpl in Heq. lia.
  - apply (f_equal String.length) in Heq.
    rewrite !length_append in Heq. simpl in Heq. lia.
  - injection Heq as -> Heq. destruct (IH s2 Heq) as [-> ->]. split; reflexivity.
Qed.

Lemma role_is_bit (params : list (string * string)) :
  role params = 0 \/ role params = 1.
Proof.
  unfold role. destruct (params_get "role" params) as [v|]; [|left; reflexivity].
  destruct (String.eqb v "1"); [right|left]; reflexivity.
Qed.

Lemma role_suffix_length (r : nat) :
  r = 0 \/ r = 1 -> String.length (String.append "/" (pretty r)) = 2.
Proof. intros [->| ->]; reflexivity. Qed.

End AddressFacts.

(** X11. The signalling address of a test is made of the base address, the
    index of the test and the role, and the role read from the page's
    parameters is 0 or 1 (1 only for [role=1]).  For one base address, two
    addresses are equal only if the test index is the same and the role is the
    same: tests, and the two roles of one test, never share an address. *)
Theorem signalingServerUrl_separates
    (base : string) (index index' : nat) (params params' : list (string * string)) :
  signalingServerUrl base index (role params) =
    signalingServerUrl base index' (role params') ->
  index = index' /\ role params = role params'.
Proof.
  unfold signalingServerUrl. intros Heq.
  apply String.app_inj in Heq. injection Heq as Heq.
  apply (AddressFacts.append_inv (pretty index) (pretty index')
           (String.append "/" (pretty (role params)))
           (String.append "/" (pretty (role params')))) in Heq.
  - destruct Heq as [Hindex Hrole]. split.
    + exact (pretty_nat_inj _ _ Hindex).
    + injection Hrole as Hrole. exact (pretty_nat_inj _ _ Hrole).
  - rewrite !AddressFacts.role_suffix_length by apply AddressFacts.role_is_bit.
    reflexivity.
Qed.

Lemma signalingServerUrl_separates_witness :
  3 = 3 /\ role [("crossBrowser", ""); ("role", "1")] = role [("role", "1")].
Proof.
  apply (signalingServerUrl_separates "ws://localhost/path" 3 3
           [("crossBrowser", ""); ("role", "1")] [("role", "1")]).
  reflexivity.
Defined.

(** ** A handler that throws *)

Module ThrowFacts.
Import Router.

(** The store in which the object [this] is [s] with the queue [q]. *)
Local Abbreviation with_queue this s q w :=
  {| futures := futures w;
     signalings := <[this := with_pendingInboundMessages q s]> (signalings w);
     deliveries := deliveries w;
     microtasks := microtasks w |}.

(** Whatever the handlers do, an envelope whose kind has no consumer ready
    joins the queue. *)
Lemma receive_requeues (H : Host) (this : sid) (m : message) (w : World)
      (s : Signaling) :
  signalings w !! this = Some s -> waits_for_consumer s m ->
  _receiveMessage this m w = push_inbound this m w.
Proof.
  intros Hs (k & v & Hseen & Hval & Hnone).
  pose proof (RegistrationFacts.seen_kind_of m k v Hseen) as Hkind.
  unfold _receiveMessage. rewrite (RegistrationFacts.default_value_id m v Hval).
  unfold kind_of in Hkind. destruct (msg_type m) as [ty|]; [|discriminate].
  repeat case_decide; try discriminate; injection Hkind as <-; simpl in Hnone.
  - unfold _handleRemoteDescription, bind at 1, load. rewrite Hs.
    destruct (_remoteDescriptionFuture s); [discriminate|reflexivity].
  - unfold _handleRemoteCandidate, bind at 1, load. rewrite Hs.
    destruct (_remoteCandidateHandler s); [discriminate|reflexivity].
  - unfold _handleData, bind at 1, load. rewrite Hs.
    destruct (_remoteDataHandler s); [discriminate|reflexivity].
  - discriminate.
Qed.

Lemma push_inbound_with_queue (this : sid) (m : message) (w : World)
      (s : Signaling) (q : list message) :
  this < length (signalings w) ->
  push_inbound this m (with_queue this s q w) =
    (Ok tt, with_queue this s (q ++ [m]) w).
Proof.
  intros Hlt. unfold push_inbound, bind, load, store. cbn [signalings].
  rewrite list_lookup_insert_eq by exact Hlt.
  simpl.
  rewrite list_insert_insert_eq. reflexivity.
Qed.

(** The replay loop puts the messages that still wait back into the queue, in
    their order, and goes on with the rest. *)
Lemma for_of_requeues (H : Host) (this : sid) (s : Signaling) (w : World)
      (before tail : list message) :
  this < length (signalings w) ->
  Forall (waits_for_consumer s) before ->
  forall q,
    for_of (before ++ tail) (_receiveMessage this) (with_queue this s q w) =
    for_of tail (_receiveMessage this) (with_queue this s (q ++ before) w).
Proof.
  intros Hlt Hbefore. induction Hbefore as [|m before Hm _ IH]; intros q.
  - rewrite app_nil_r. reflexivity.
  - cbn [app for_of]. unfold bind at 1.
    rewrite (receive_requeues H this m _ (with_pendingInboundMessages q s)).
    + rewrite (push_inbound_with_queue this m w s q Hlt).
      rewrite IH, <- app_assoc. reflexivity.
    + cbn [signalings]. apply list_lookup_insert_eq. exact Hlt.
    + apply QueueFacts.waits_with_queue, Hm.
Qed.

(** Whatever the handlers do, a candidate that meets a handler is handed
    to it. *)
Lemma receive_candidate_calls (H : Host) (this : sid) (c : message) (w : World)
      (s : Signaling) (h : handler) (v : value) :
  signalings w !! this = Some s -> _remoteCandidateHandler s = Some h ->
  kind_of c = Some Candidate -> msg_value c = Some v ->
  _receiveMessage this c w = deliver this (CandidateHandler h) v w.
Proof.
  intros Hs Hh Hkind Hval.
  unfold _receiveMessage. rewrite (RegistrationFacts.default_value_id c v Hval).
  unfold kind_of in Hkind. destruct (msg_type c) as [ty|]; [|discriminate].
  repeat case_decide; try discriminate.
  unfold _handleRemoteCandidate, bind at 1, load. rewrite Hs, Hh.
  unfold value_of. rewrite Hval. reflexivity.
Qed.

Lemma waits_with_candidate_handler (s : Signaling) (h : handler) (m : message) :
  kind_of m <> Some Candidate -> waits_for_consumer s m ->
  waits_for_consumer (with_remoteCandidateHandler (Some h) s) m.
Proof.
  intros Hne (k & v & Hseen & Hval & Hnone). exists k, v.
  split; [exact Hseen|]. split; [exact Hval|].
  destruct k; try exact Hnone.
  contradiction Hne. exact (RegistrationFacts.seen_kind_of m _ v Hseen).
Qed.

End ThrowFacts.

(** X12. An error that a handler throws ends the replay that called it.  In
    a store that incoming messages and registrations have led to, let
    [onRemoteCandidate] be set to a handler that throws when it is called with
    the first retained candidate (and leaves the store as it is).  Then the
    setter raises that error after one call of the handler; the messages
    queued ahead of that candidate are in the queue again, in their order; and
    the messages queued behind it are gone from the queue without having been
    handed to anyone, and no future is touched. *)
Theorem throwing_handler_cuts_replay_short
    (H : Host) (class : transport) (es : list event) (h : handler)
    (before rest : list message) (c : message) (e : error) :
  let w := @occur_all quiet 0 es (fresh class) in
  inbound 0 w = before ++ c :: rest ->
  Forall (fun m => kind_of m <> Some Candidate) before ->
  kind_of c = Some Candidate ->
  (forall w', host_call h (value_of c) w' = (Throw e, w')) ->
  let w' := exec (set_onRemoteCandidate 0 h) w in
  eval (set_onRemoteCandidate 0 h) w = Throw e /\
  inbound 0 w' = before /\
  deliveries_at 0 w' =
    deliveries_at 0 w ++ [(CandidateHandler h, value_of c)] /\
  futures w' = futures w.
Proof.
  cbv zeta. intros Hqueue Hbefore Hkind Hthrow.
  destruct (QueueFacts.reached_waits class es) as (o & Hobs & _ & Hq).
  set (w := occur_all 0 es (fresh class)) in *.
  destruct (Waits.observe_inv 0 w o Hobs) as (Hfields & _ & _).
  set (s := Router.fields o) in *.
  pose proof (lookup_lt_Some _ _ _ Hfields) as Hlt.
  unfold inbound in Hqueue. rewrite Hfields in Hqueue.
  unfold queue_waits in Hq. fold s in Hq. rewrite Hqueue in Hq.
  apply Forall_app in Hq as [Hq_before Hq_c].
  inversion Hq_c as [|? ? (k & v & Hseen & Hval & _) _]; subst.
  set (s1 := with_remoteCandidateHandler (Some h) s).
  assert (Hrun : set_onRemoteCandidate 0 h w =
                 for_of (before ++ c :: rest) (_receiveMessage 0)
                   {| futures := futures w;
                      signalings :=
                        <[0 := with_pendingInboundMessages [] s1]> (signalings w);
                      deliveries := deliveries w;
                      microtasks := microtasks w |}).
  { unfold set_onRemoteCandidate, bind at 1, load. rewrite Hfields.
    unfold bind at 1, store at 1.
    unfold _processPendingInboundMessages, bind at 1, load. cbn [signalings].
    rewrite list_lookup_insert_eq by exact Hlt.
    unfold bind at 1, store. cbn [signalings futures deliveries microtasks].
    rewrite list_insert_insert_eq. fold s1.
    replace (_pendingInboundMessages s1) with (before ++ c :: rest)
      by (symmetry; exact Hqueue).
    reflexivity. }
  assert (Hbefore' : Forall (waits_for_consumer s1) before).
  { rewrite Forall_forall in Hq_before, Hbefore. apply Forall_forall.
    intros m Hm. apply ThrowFacts.waits_with_candidate_handler; auto. }
  rewrite (ThrowFacts.for_of_requeues H 0 s1 w before (c :: rest) Hlt Hbefore' [])
    in Hrun.
  cbn [app for_of] in Hrun. unfold bind at 1 in Hrun.
  rewrite (ThrowFacts.receive_candidate_calls H 0 c _
             (with_pendingInboundMessages before s1) h v) in Hrun;
    [|apply list_lookup_insert_eq; exact Hlt|reflexivity|exact Hkind|exact Hval].
  assert (Hv : value_of c = v) by (unfold value_of; rewrite Hval; reflexivity).
  unfold deliver, bind at 1, trace in Hrun. rewrite <- Hv, Hthrow in Hrun.
  unfold eval, exec. rewrite Hrun. cbn [fst snd futures].
  split; [reflexivity|]. split; [|split; [|reflexivity]].
  - unfold inbound. cbn [signalings].
    rewrite list_lookup_insert_eq by exact Hlt. reflexivity.
  - unfold deliveries_at. cbn [deliveries].
    rewrite RouterFacts.omap_at_snoc, decide_True by reflexivity. reflexivity.
Qed.

Lemma throwing_handler_cuts_replay_short_witness :
  let w := occur_all 0 [Receive (envelope "data" (VNum 1));
                        Receive (envelope "candidate" (VNum 2));
                        Receive (envelope "candidate" (VNum 3))]
                     (fresh Abstract) in
  let w' := exec (@set_onRemoteCandidate throwing 0 7) w in
  eval (@set_onRemoteCandidate throwing 0 7) w =
    Throw (TypeError "the handler failed") /\
  inbound 0 w' = [envelope "data" (VNum 1)] /\
  deliveries_at 0 w' = [(CandidateHandler 7, VNum 2)] /\
  futures w' = futures w.
Proof.
  apply (throwing_handler_cuts_replay_short throwing Abstract
           [Receive (envelope "data" (VNum 1));
            Receive (envelope "candidate" (VNum 2));
            Receive (envelope "candidate" (VNum 3))]
           7 [envelope "data" (VNum 1)] [envelope "candidate" (VNum 3)]
           (envelope "candidate" (VNum 2)) (TypeError "the handler failed")).
  - reflexivity.
  - repeat constructor. discriminate.
  - reflexivity.
  - intros w'. reflexivity.
Defined.
